(** * State-of-charge pipeline of lithium_battery.ipynb

    A shallow embedding of the extraction, resampling, coulomb-counting,
    loss, training and evaluation functions of the notebook, and the
    properties of its specification that concern them.

    Numbers.  A float is modelled by [xval]: an exact rational, one of
    the two infinities, or NaN, with the IEEE-754 arithmetic of the
    special values (signed zeros apart).  The rounding of a finite result
    is not modelled.  The float32 operations on tensors overflow to an
    infinity ([f32]).  The overflow of float64 is not modelled: what is
    proved of a float64 computation is proved in exact arithmetic, and
    where an overflow would change the result the property carries the
    bound that excludes it.  The samples read from the battery records
    and the series computed from them by the extraction are finite
    numbers, exact rationals [Q]. *)

From Stdlib Require Import QArith Qabs Lqa Lia Ascii.
From stdpp Require Import gmap strings list.

Local Open Scope Q_scope.

(** ** Python exceptions and the error monad *)

Inductive exn : Set :=
  | TypeError          (* len() of a 0-d array *)
  | KeyError           (* battery_meta['sub_dir'] *)
  | ValueError         (* np.concatenate of an empty list *)
  | UnboundLocalError  (* [loss] read before assignment *)
  | FileNotFoundError  (* load_weights of a file never saved *)
  | EmptyDataError.    (* pd.read_csv of a file without columns *)

Inductive result (A : Type) : Type :=
  | Ok (a : A)
  | Err (e : exn).
Arguments Ok {A} a.
Arguments Err {A} e.

Definition rbind {A B : Type} (m : result A) (k : A -> result B) : result B :=
  match m with
  | Ok a => k a
  | Err e => Err e
  end.

#[global] Instance result_ret : MRet result := fun _ a => Ok a.
#[global] Instance result_bind : MBind result := fun _ _ k m => rbind m k.

(** ** Extended values: finite rationals, infinities and NaN *)

Inductive xval : Set :=
  | XFin (q : Q)
  | XPInf
  | XNInf
  | XNaN.

Definition Qltb (x y : Q) : bool := negb (Qle_bool y x).

Definition xopp (a : xval) : xval :=
  match a with
  | XFin q => XFin (- q)
  | XPInf => XNInf
  | XNInf => XPInf
  | XNaN => XNaN
  end.

Definition xadd (a b : xval) : xval :=
  match a, b with
  | XNaN, _ | _, XNaN => XNaN
  | XFin p, XFin q => XFin (p + q)
  | XPInf, XNInf | XNInf, XPInf => XNaN
  | XPInf, _ | _, XPInf => XPInf
  | XNInf, _ | _, XNInf => XNInf
  end.

Definition xsub (a b : xval) : xval := xadd a (xopp b).

(** The infinity with the sign of [q], NaN for [q == 0]. *)
Definition xinf_signed (q : Q) (pos : bool) : xval :=
  if Qeq_bool q 0 then XNaN
  else if Bool.eqb (Qltb 0 q) pos then XPInf else XNInf.

Definition xmul (a b : xval) : xval :=
  match a, b with
  | XNaN, _ | _, XNaN => XNaN
  | XFin p, XFin q => XFin (p * q)
  | XFin p, XPInf | XPInf, XFin p => xinf_signed p true
  | XFin p, XNInf | XNInf, XFin p => xinf_signed p false
  | XPInf, XPInf | XNInf, XNInf => XPInf
  | XPInf, XNInf | XNInf, XPInf => XNInf
  end.

(** Division as numpy performs it on float64: no exception, [x/0] is an
    infinity with the sign of [x] and [0/0] is NaN. *)
Definition xdiv (a b : xval) : xval :=
  match a, b with
  | XNaN, _ | _, XNaN => XNaN
  | XFin p, XFin q => if Qeq_bool q 0 then xinf_signed p true else XFin (p / q)
  | XFin _, _ => XFin 0
  | XPInf, XFin q => if Qltb q 0 then XNInf else XPInf
  | XNInf, XFin q => if Qltb q 0 then XPInf else XNInf
  | _, _ => XNaN
  end.

(** IEEE [<]: false as soon as one side is NaN. *)
Definition xltb (a b : xval) : bool :=
  match a, b with
  | XNaN, _ | _, XNaN => false
  | XFin p, XFin q => Qltb p q
  | XNInf, XNInf | XPInf, _ => false
  | XNInf, _ | _, XPInf => true
  | XFin _, XNInf => false
  end.

(** [np.clip(a, lo, hi)]: NaN goes through. *)
Definition xclip (a : xval) (lo hi : Q) : xval :=
  match a with
  | XFin q => XFin (if Qltb q lo then lo else if Qltb hi q then hi else q)
  | XPInf => XFin hi
  | XNInf => XFin lo
  | XNaN => XNaN
  end.

Definition xfinite (a : xval) : bool :=
  match a with XFin _ => true | _ => false end.

(** Same value: rationals up to [==], special values identical. *)
Definition xeq (a b : xval) : Prop :=
  match a, b with
  | XFin p, XFin q => p == q
  | XPInf, XPInf | XNInf, XNInf | XNaN, XNaN => True
  | _, _ => False
  end.

(** *** float32

    The exact result of a float32 operation rounds to an infinity when
    its magnitude reaches [2^128 - 2^103], half a unit in the last place
    above the largest float32. *)
Definition FLT_OVERFLOW : Q := inject_Z (2 ^ 128 - 2 ^ 103).

Definition f32 (a : xval) : xval :=
  match a with
  | XFin q =>
      if Qle_bool FLT_OVERFLOW q then XPInf
      else if Qle_bool q (- FLT_OVERFLOW) then XNInf
      else XFin q
  | _ => a
  end.

Definition fadd (a b : xval) : xval := f32 (xadd a b).
Definition fsub (a b : xval) : xval := f32 (xsub a b).
Definition fmul (a b : xval) : xval := f32 (xmul a b).
Definition fdiv (a b : xval) : xval := f32 (xdiv a b).

(** The largest float64. *)
Definition DBL_MAX : Q := inject_Z (2 ^ 1024 - 2 ^ 971).

(** Membership of the closed unit interval, the range of an SOC value. *)
Definition in_unit (a : xval) : Prop :=
  match a with
  | XFin q => 0 <= q /\ q <= 1
  | _ => False
  end.

Definition in_unitb (a : xval) : bool :=
  match a with
  | XFin q => Qle_bool 0 q && Qle_bool q 1
  | _ => false
  end.

(** ** numpy primitives on one-dimensional arrays *)

Definition Qnat (n : nat) : Q := inject_Z (Z.of_nat n).

Fixpoint Qsum (l : list Q) : Q :=
  match l with
  | [] => 0
  | x :: l' => x + Qsum l'
  end.

(** [np.mean] (and [tf.reduce_mean]) of finite data: NaN on no data. *)
Definition np_mean (l : list Q) : xval :=
  xdiv (XFin (Qsum l)) (XFin (Qnat (length l))).

Definition np_zeros (n : nat) : list Q := repeat 0 n.
Definition np_full (n : nat) (v : Q) : list Q := repeat v n.

(** [np.linspace(start, stop, num)] with the default [endpoint=True]:
    [arange(num) * step + start] with [step = (stop - start) / (num - 1)],
    the last element then overwritten by [stop]; for [num = 1] numpy
    computes [arange(1) * (stop - start) + start]. *)
Definition np_linspace (start stop : Q) (num : nat) : list Q :=
  match num with
  | O => []
  | S O => [0 * (stop - start) + start]
  | S (S _ as div) =>
      let step := (stop - start) / Qnat div in
      map (fun i => Qnat i * step + start) (seq 0 div) ++ [stop]
  end.

(** The interval search and the interpolation of [np.interp] for one
    abscissa [x] with [xp[0] <= x].  numpy finds by bisection the largest
    [j] with [xp[j] <= x]; on increasing [xp] the scan below finds the same
    [j].  At [j = len(xp) - 1] and at a knot [x == xp[j]] the ordinate is
    returned as it is, elsewhere
    [(fp[j+1] - fp[j]) / (xp[j+1] - xp[j]) * (x - xp[j]) + fp[j]]. *)
Fixpoint interp_search (x : Q) (xp fp : list Q) : Q :=
  match xp, fp with
  | x0 :: ((x1 :: _) as xp'), f0 :: ((f1 :: _) as fp') =>
      if Qltb x x1 then
        if Qeq_bool x0 x then f0
        else (f1 - f0) / (x1 - x0) * (x - x0) + f0
      else interp_search x xp' fp'
  | _, f0 :: _ => f0
  | _, [] => 0
  end.

(** [np.interp(x, xp, fp)] for non-empty [xp] (numpy raises on an empty
    one; [anchor_resample] calls it with at least two knots). *)
Definition np_interp1 (x : Q) (xp fp : list Q) : Q :=
  match xp, fp with
  | x0 :: _, f0 :: _ => if Qltb x x0 then f0 else interp_search x xp fp
  | _, _ => 0
  end.

Definition np_interp (xs xp fp : list Q) : list Q :=
  map (fun x => np_interp1 x xp fp) xs.

(** ** 1. Resampling (anchor_resample) *)

Definition anchor_resample (x : list Q) (num_points : nat) : list Q :=
  match x with
  | [] => np_zeros num_points
  | [x0] => np_full num_points x0
  | _ =>
      let hi := Qnat (length x - 1)%nat in
      let original_indices := np_linspace 0 hi (length x) in
      let target_indices := np_linspace 0 hi num_points in
      np_interp target_indices original_indices x
  end.

(** ** 2. Cycle extraction (process_battery, preprocess_and_save_csv) *)

(** [str.lower] on the ASCII letters; no other character lowers to a
    letter of "discharge". *)
Definition lower_ascii (c : ascii) : ascii :=
  let n := nat_of_ascii c in
  if ((65 <=? n) && (n <=? 90))%nat then ascii_of_nat (n + 32) else c.

Fixpoint lower (s : string) : string :=
  match s with
  | EmptyString => EmptyString
  | String c s' => String (lower_ascii c) (lower s')
  end.

(** What [np.squeeze] returns for a one-dimensional channel: an array
    with a single sample collapses to a 0-d array, whose [len()] raises. *)
Inductive ndarray : Type :=
  | Arr0 (q : Q)
  | Arr1 (l : list Q).

Definition np_squeeze (l : list Q) : ndarray :=
  match l with
  | [q] => Arr0 q
  | _ => Arr1 l
  end.

Definition py_len (a : ndarray) : result nat :=
  match a with
  | Arr0 _ => Err TypeError
  | Arr1 l => Ok (length l)
  end.

(** [anchor_resample] on a squeezed channel: its first statement is
    [len(x)]. *)
Definition anchor_resample_nd (a : ndarray) (num_points : nat) : result (list Q) :=
  match a with
  | Arr0 _ => Err TypeError
  | Arr1 l => Ok (anchor_resample l num_points)
  end.

(** One entry of a battery's cycle collection after [mat_struct_to_dict]:
    the keys [process_battery] reads, [None] for an absent key.  The type
    tag is carried as its [str()]. *)
Record cycle : Type := {
  c_type : option string;
  c_index : option nat;
  c_time : option string;
  c_ambient_temperature : option Q;
  c_data : option (gmap string (list Q))
}.

(** An entry that is no mapping makes [c.get] raise, which the loop
    catches. *)
Inductive entry : Type :=
  | NotMapping
  | Mapping (c : cycle).

Record discharge_meta : Type := {
  d_cutoff_voltage : option Q;
  d_discharge_type : option string;
  d_discharge_amplitude : option Q;
  d_discharge_frequency : option Q;
  d_discharge_dutycycle : option Q
}.

Record battery_meta : Type := {
  m_usable : option bool;
  m_sub_dir : option string;
  m_c0 : option Q;
  m_fade_in_percent : option Q;
  m_discharge : option discharge_meta
}.

(** A row of the intermediate table; the per-index columns
    [voltage_0 .. voltage_{L-1}] and so on are kept as lists. *)
Record row : Type := {
  r_battery_id : string;
  r_cycle_id : nat;
  r_time_cycle_start : string;
  r_ambient_temperature : xval;
  r_capacity_k : xval;
  r_cap_0 : xval;
  r_fade : xval;
  r_cutoff_voltage : xval;
  r_discharge_type : string;
  r_discharge_amplitude : xval;
  r_discharge_frequency : xval;
  r_discharge_dutycycle : xval;
  r_voltage : list Q;
  r_current : list Q;
  r_temperature : list Q;
  r_time : list Q;
  r_soc : list xval
}.

(** What is at a path of the record store.  [Cycles] carries the value
    of the "cycle" key as the list the loop iterates over, a single
    mapping being a list of one entry. *)
Inductive mat_file : Type :=
  | Unreadable                   (* loadmat or the battery key fails *)
  | NoCycleField                 (* no "cycle" key *)
  | Cycles (cycles : list entry).

Definition MAX_CYCLES : nat := 1000.

Definition or_nan (o : option Q) : xval := from_option XFin XNaN o.

(** [dat.get(k1, dat.get(k2, np.array([])))] *)
Definition channel (dat : gmap string (list Q)) (k1 k2 : string) : list Q :=
  default (default [] (dat !! k2)) (dat !! k1).

(** [float(np.ravel(dat.get("Capacity", np.nan))[0])], NaN on failure. *)
Definition capacity_k (dat : gmap string (list Q)) : xval :=
  match dat !! "Capacity" with
  | Some (q :: _) => XFin q
  | _ => XNaN
  end.

(** [1.0 - time_r / (time_r[-1] if len(time_r) > 0 else 1.0)] *)
Definition soc_from_time (time_r : list Q) : list xval :=
  let d := default 1 (last time_r) in
  map (fun t => xsub (XFin 1) (xdiv (XFin t) (XFin d))) time_r.

Definition discharge_field {A} (meta : battery_meta)
    (f : discharge_meta -> option A) : option A :=
  d ← m_discharge meta; f d.

(** The body of the loop over the cycle entries: [Ok None] is [continue],
    [Ok (Some r)] is the row appended to [results]. *)
Definition cycle_row (battery_id : string) (meta : battery_meta)
    (num_points : nat) (i : nat) (e : entry) : result (option row) :=
  match e with
  | NotMapping => Ok None
  | Mapping c =>
      let cyc_type := lower (default "" (c_type c)) in
      if negb (String.eqb cyc_type "discharge") then Ok None else
      let cycle_id := default i (c_index c) in
      let time_cycle_start := default "N/A" (c_time c) in
      let ambient_temperature := or_nan (c_ambient_temperature c) in
      let dat := default ∅ (c_data c) in
      let voltage := np_squeeze (channel dat "Voltage_measured" "voltage") in
      let current := np_squeeze (channel dat "Current_measured" "current") in
      let temperature :=
        np_squeeze (channel dat "Temperature_measured" "temperature") in
      let time := np_squeeze (channel dat "Time" "time") in
      let cap_k := capacity_k dat in
      lv ← py_len voltage;
      short ← (if (lv <? 5)%nat then Ok true
               else lc ← py_len current; Ok (lc <? 5)%nat);
      if (short : bool) then Ok None else
      voltage_r ← anchor_resample_nd voltage num_points;
      current_r ← anchor_resample_nd current num_points;
      temperature_r ← anchor_resample_nd temperature num_points;
      time_r ← anchor_resample_nd time num_points;
      let soc_r := soc_from_time time_r in
      Ok (Some {|
        r_battery_id := battery_id;
        r_cycle_id := cycle_id;
        r_time_cycle_start := time_cycle_start;
        r_ambient_temperature := ambient_temperature;
        r_capacity_k := cap_k;
        r_cap_0 := or_nan (m_c0 meta);
        r_fade := or_nan (m_fade_in_percent meta);
        r_cutoff_voltage := or_nan (discharge_field meta d_cutoff_voltage);
        r_discharge_type := default "" (discharge_field meta d_discharge_type);
        r_discharge_amplitude :=
          or_nan (discharge_field meta d_discharge_amplitude);
        r_discharge_frequency :=
          or_nan (discharge_field meta d_discharge_frequency);
        r_discharge_dutycycle :=
          or_nan (discharge_field meta d_discharge_dutycycle);
        r_voltage := voltage_r;
        r_current := current_r;
        r_temperature := temperature_r;
        r_time := time_r;
        r_soc := soc_r |})
  end.

(** [for i, c in enumerate(cycles)], from position [i] with [results]
    accumulated so far; the loop breaks when [len(results) >= MAX_CYCLES]
    after an append. *)
Fixpoint process_cycles (battery_id : string) (meta : battery_meta)
    (num_points : nat) (i : nat) (cycles : list entry) (results : list row)
    : result (list row) :=
  match cycles with
  | [] => Ok results
  | c :: rest =>
      o ← cycle_row battery_id meta num_points i c;
      match o with
      | None => process_cycles battery_id meta num_points (S i) rest results
      | Some r =>
          let results := results ++ [r] in
          if (MAX_CYCLES <=? length results)%nat then Ok results
          else process_cycles battery_id meta num_points (S i) rest results
      end
  end.

Definition mat_path (base_path sub_dir battery_id : string) : string :=
  base_path +:+ "/" +:+ sub_dir +:+ "/" +:+ battery_id +:+ ".mat".

(** [fs] is the record store: the files that exist, by path. *)
Definition process_battery (fs : gmap string mat_file) (battery_id : string)
    (meta : battery_meta) (base_path : string) (num_points : nat)
    : result (list row) :=
  match m_sub_dir meta with
  | None => Err KeyError
  | Some sub_dir =>
      match fs !! mat_path base_path sub_dir battery_id with
      | None => Ok []
      | Some Unreadable => Ok []
      | Some NoCycleField => Ok []
      | Some (Cycles cycles) =>
          process_cycles battery_id meta num_points 0 cycles []
      end
  end.

(** [for battery_id, battery_meta in batteries.items()], with [all_data]
    accumulated so far; [batteries] lists the metadata mapping in its
    iteration order. *)
Fixpoint extract_batteries (fs : gmap string mat_file) (mat_dir : string)
    (num_points max_cycles : nat) (batteries : list (string * battery_meta))
    (all_data : list row) : result (list row) :=
  match batteries with
  | [] => Ok all_data
  | (battery_id, meta) :: rest =>
      if negb (default true (m_usable meta)) then
        extract_batteries fs mat_dir num_points max_cycles rest all_data
      else
        data_rows ← process_battery fs battery_id meta mat_dir num_points;
        let all_data := all_data ++ data_rows in
        if (max_cycles <=? length all_data)%nat then Ok all_data
        else extract_batteries fs mat_dir num_points max_cycles rest all_data
  end.

(** The rows of the data frame written to [csv_path]. *)
Definition preprocess_and_save_csv (fs : gmap string mat_file)
    (mat_dir : string) (batteries : list (string * battery_meta))
    (num_points max_cycles : nat) : result (list row) :=
  extract_batteries fs mat_dir num_points max_cycles batteries [].

(** ** 3. Coulomb counting (simple_ecm) *)

(** The loop of [simple_ecm] from the running value [soc].  [current] is
    a float64 array: a sample is a number, an infinity or NaN. *)
Fixpoint simple_ecm_from (soc : xval) (current : list xval)
    (delta_t capacity : Q) : list xval :=
  match current with
  | [] => []
  | c :: rest =>
      let soc :=
        xsub soc (xdiv (xmul c (XFin delta_t)) (XFin (capacity * 3600))) in
      let soc := xclip soc 0 1 in
      soc :: simple_ecm_from soc rest delta_t capacity
  end.

Definition simple_ecm (current : list xval) (delta_t capacity : Q)
    : list xval :=
  simple_ecm_from (XFin 1) current delta_t capacity.

(** ** 4. Losses (mse_loss, physics_informed_loss)

    A float32 tensor is the list of its elements in row-major order; the
    operands of an element-wise operation have been broadcast to one
    shape. *)

Definition square (q : Q) : Q := q * q.

(** [tf.square] of a tensor, [** 2] of a float32 array. *)
Definition f_square (a : xval) : xval := fmul a a.

(** [tf.nn.relu]: NaN goes through. *)
Definition tf_relu (a : xval) : xval :=
  match a with
  | XFin q => XFin (if Qltb 0 q then q else 0)
  | XPInf => XPInf
  | XNInf => XFin 0
  | XNaN => XNaN
  end.

(** [tf.reduce_mean]: the elements summed in order, divided by their
    number; NaN for a tensor without elements. *)
Definition tf_reduce_sum (l : list xval) : xval := foldl fadd (XFin 0) l.
Definition tf_reduce_mean (l : list xval) : xval :=
  fdiv (tf_reduce_sum l) (XFin (Qnat (length l))).

Definition mse_loss (y_true y_pred : list xval) : xval :=
  tf_reduce_mean (zip_with (fun t p => f_square (fsub t p)) y_true y_pred).

Definition physics_informed_loss (y_true y_pred ecm_soc : list xval)
    (alpha beta : Q) : xval :=
  let mse :=
    tf_reduce_mean (zip_with (fun p t => f_square (fsub p t)) y_pred y_true) in
  let coulomb :=
    tf_reduce_mean (zip_with (fun p e => f_square (fsub p e)) y_pred ecm_soc) in
  let boundary :=
    tf_reduce_mean
      (map (fun p => fadd (tf_relu (fsub p (XFin 1)))
                          (tf_relu (fsub (XFin 0) p))) y_pred) in
  fadd (fadd mse (fmul (XFin alpha) coulomb)) (fmul (XFin beta) boundary).

(** ** 5. Training (train_model) and evaluation (evaluate_model) *)

Definition xsum (l : list xval) : xval := foldl xadd (XFin 0) l.

(** [np.mean] of a list of loss values. *)
Definition xmean (l : list xval) : xval :=
  xdiv (xsum l) (XFin (Qnat (length l))).

(** The name of the file [save_weights] and [load_weights] use. *)
Definition checkpoint_key (loss_type model_name : string) : string :=
  "best_" +:+ loss_type +:+ "_" +:+ model_name +:+ ".weights.h5".

(** The metrics [evaluate_model] and [ecm_baseline_eval] return, over
    arrays of elements [A]. *)
Record metrics (A : Type) : Type := {
  e_preds : list A;
  e_trues : list A;
  e_rmse : xval;
  e_mae : xval;
  e_r2 : xval
}.
Arguments Build_metrics {A}.
Arguments e_preds {A}.
Arguments e_trues {A}.
Arguments e_rmse {A}.
Arguments e_mae {A}.
Arguments e_r2 {A}.

(** [np.abs] *)
Definition f_abs (a : xval) : xval :=
  match a with
  | XFin q => XFin (Qabs q)
  | XNInf => XPInf
  | _ => a
  end.

(** What [np.concatenate] (along the first axis) asks of the shapes of
    its arrays: one array or more, none of dimension zero, all of one
    dimension and equal but for the first axis. *)
Definition concatenable (shapes : list (list nat)) : bool :=
  match shapes with
  | [] => false
  | s :: _ =>
      forallb (fun s' => negb (length s' =? 0)%nat
                         && (length s' =? length s)%nat
                         && bool_decide (tail s' = tail s)) shapes
  end.

Section Model.

(** The network and its optimiser are opaque: [W] are the trainable
    weights, [Opt] the state of the optimiser, [F] a batch of feature
    sequences. *)
Variables W Opt F : Type.

(** [model(features)], a float32 tensor of shape (cycles, points, 1). *)
Variable forward : W -> F -> list xval.

(** [tf.keras.optimizers.Adam(lr)] *)
Variable adam : Q -> Opt.

(** [tape.gradient] of the batch loss as a function of the weights,
    followed by [optimizer.apply_gradients]. *)
Variable apply_gradients : Opt -> W -> (W -> result xval) -> Opt * W.

(** [np.sqrt] is left abstract, and so are [np.sum] and [np.mean] of a
    float32 array, whose value depends on the order and the rounding of
    numpy's summation. *)
Variable np_sqrt : xval -> xval.
Variables np_sum32 np_mean32 : list xval -> xval.

(** A batch of the dataset: [b_cycles] cycles of [b_points] points each.
    The features have shape (cycles, points, 4), the baseline and the
    true SOC shape (cycles, points); a tensor is held as the list of its
    elements. *)
Record batch : Type := {
  b_cycles : nat;
  b_points : nat;
  b_features : F;
  b_ecm_soc : list xval;
  b_true_soc : list xval
}.

(** The loss of one batch, as both loops of [train_model] compute it.
    With another [loss_type] no branch assigns [loss], and reading it
    raises. *)
Definition batch_loss (loss_type : string) (ecm_in : bool) (alpha beta : Q)
    (b : batch) (w : W) : result xval :=
  if String.eqb loss_type "mse" then
    let pred := forward w (b_features b) in
    let pred_soc := if ecm_in then zip_with fadd (b_ecm_soc b) pred else pred in
    Ok (mse_loss (b_true_soc b) pred_soc)
  else if String.eqb loss_type "physics" then
    let pred := forward w (b_features b) in
    let pred_soc := zip_with fadd (b_ecm_soc b) pred in
    Ok (physics_informed_loss (b_true_soc b) pred_soc (b_ecm_soc b) alpha beta)
  else Err UnboundLocalError.

(** The loop over the training batches: weights and optimiser updated
    after every batch, the batch losses collected. *)
Fixpoint train_batches (loss_type : string) (ecm_in : bool) (alpha beta : Q)
    (train_ds : list batch) (o : Opt) (w : W) (train_losses : list xval)
    : result (Opt * W * list xval) :=
  match train_ds with
  | [] => Ok (o, w, train_losses)
  | b :: rest =>
      loss ← batch_loss loss_type ecm_in alpha beta b w;
      let '(o, w) := apply_gradients o w (batch_loss loss_type ecm_in alpha beta b) in
      train_batches loss_type ecm_in alpha beta rest o w (train_losses ++ [loss])
  end.

(** The loop over the validation batches. *)
Fixpoint val_batches (loss_type : string) (ecm_in : bool) (alpha beta : Q)
    (val_ds : list batch) (w : W) (val_losses : list xval)
    : result (list xval) :=
  match val_ds with
  | [] => Ok val_losses
  | b :: rest =>
      loss ← batch_loss loss_type ecm_in alpha beta b w;
      val_batches loss_type ecm_in alpha beta rest w (val_losses ++ [loss])
  end.

(** What [train_model] reads and writes: the optimiser, the weights of
    the model, the best validation loss, the checkpoint files by name,
    and the two histories. *)
Record train_state : Type := {
  ts_opt : Opt;
  ts_weights : W;
  ts_best_val_loss : xval;
  ts_files : gmap string W;
  ts_train_loss_history : list xval;
  ts_val_loss_history : list xval
}.

(** One iteration of [for epoch in range(epochs)]. *)
Definition train_epoch (model_name loss_type : string) (ecm_in : bool)
    (alpha beta : Q) (train_ds val_ds : list batch) (st : train_state)
    : result train_state :=
  '(o, w, train_losses) ←
    train_batches loss_type ecm_in alpha beta train_ds
      (ts_opt st) (ts_weights st) [];
  val_losses ← val_batches loss_type ecm_in alpha beta val_ds w [];
  let avg_train_loss := xmean train_losses in
  let avg_val_loss := xmean val_losses in
  let improved := xltb avg_val_loss (ts_best_val_loss st) in
  Ok {| ts_opt := o;
        ts_weights := w;
        ts_best_val_loss :=
          if improved then avg_val_loss else ts_best_val_loss st;
        ts_files :=
          if improved
          then <[checkpoint_key loss_type model_name := w]> (ts_files st)
          else ts_files st;
        ts_train_loss_history := ts_train_loss_history st ++ [avg_train_loss];
        ts_val_loss_history := ts_val_loss_history st ++ [avg_val_loss] |}.

Fixpoint train_epochs (model_name loss_type : string) (ecm_in : bool)
    (alpha beta : Q) (train_ds val_ds : list batch) (epochs : nat)
    (st : train_state) : result train_state :=
  match epochs with
  | O => Ok st
  | S n =>
      st ← train_epoch model_name loss_type ecm_in alpha beta train_ds val_ds st;
      train_epochs model_name loss_type ecm_in alpha beta train_ds val_ds n st
  end.

Definition train_init (files : gmap string W) (w : W) (lr : Q) : train_state :=
  {| ts_opt := adam lr;
     ts_weights := w;
     ts_best_val_loss := XPInf;
     ts_files := files;
     ts_train_loss_history := [];
     ts_val_loss_history := [] |}.

(** [train_model]: [files] are the checkpoint files present when the
    run starts, [w] the weights of [model], [model_name] its
    [model.name].  The state returned has the weights restored by
    [load_weights]. *)
Definition train_model (files : gmap string W) (w : W) (model_name : string)
    (train_ds val_ds : list batch) (loss_type : string) (ecm_in : bool)
    (alpha beta : Q) (epochs : nat) (lr : Q) : result train_state :=
  st ← train_epochs model_name loss_type ecm_in alpha beta train_ds val_ds
         epochs (train_init files w lr);
  match ts_files st !! checkpoint_key loss_type model_name with
  | None => Err FileNotFoundError
  | Some best =>
      Ok {| ts_opt := ts_opt st;
            ts_weights := best;
            ts_best_val_loss := ts_best_val_loss st;
            ts_files := ts_files st;
            ts_train_loss_history := ts_train_loss_history st;
            ts_val_loss_history := ts_val_loss_history st |}
  end.

Definition batch_pred_soc (ecm_in : bool) (w : W) (b : batch) : list xval :=
  let pred := forward w (b_features b) in
  if ecm_in then zip_with fadd (b_ecm_soc b) pred else pred.

(** The shape [np.squeeze] leaves of the (cycles, points, 1) prediction
    and of the (cycles, points) true SOC of a batch: the axes of length
    one are dropped. *)
Definition squeezed_shape (b : batch) : list nat :=
  List.filter (fun d => negb (d =? 1)%nat) [b_cycles b; b_points b].

(** [evaluate_model].  Both lists of squeezed arrays have the shapes
    [squeezed_shape], and [np.concatenate] raises unless it accepts
    them.  The arrays are float32. *)
Definition evaluate_model (w : W) (val_ds : list batch) (ecm_in : bool)
    : result (metrics xval) :=
  if concatenable (map squeezed_shape val_ds) then
    let preds := concat (map (batch_pred_soc ecm_in w) val_ds) in
    let trues := concat (map b_true_soc val_ds) in
    let mean := np_mean32 trues in
    Ok {| e_preds := preds;
          e_trues := trues;
          e_rmse :=
            np_sqrt
              (np_mean32 (zip_with (fun p t => f_square (fsub p t)) preds trues));
          e_mae := np_mean32 (zip_with (fun p t => f_abs (fsub p t)) preds trues);
          e_r2 :=
            fsub (XFin 1)
              (fdiv
                 (np_sum32
                    (zip_with (fun p t => f_square (fsub p t)) preds trues))
                 (np_sum32 (map (fun t => f_square (fsub t mean)) trues))) |}
  else Err ValueError.

End Model.

Arguments Build_batch {F}.
Arguments b_cycles {F}.
Arguments b_points {F}.
Arguments b_features {F}.
Arguments b_ecm_soc {F}.
Arguments b_true_soc {F}.
Arguments Build_train_state {W Opt}.
Arguments ts_opt {W Opt}.
Arguments ts_weights {W Opt}.
Arguments ts_best_val_loss {W Opt}.
Arguments ts_files {W Opt}.
Arguments ts_train_loss_history {W Opt}.
Arguments ts_val_loss_history {W Opt}.
Arguments batch_loss {W F}.
Arguments train_batches {W Opt F}.
Arguments val_batches {W F}.
Arguments train_epoch {W Opt F}.
Arguments train_epochs {W Opt F}.
Arguments train_init {W Opt}.
Arguments train_model {W Opt F}.
Arguments batch_pred_soc {W F}.
Arguments squeezed_shape {F}.
Arguments evaluate_model {W F}.

(** ** 6. Record conversion (mat_struct_to_dict) *)

(** The values [loadmat] returns and the conversion produces: a dict (its
    items in order, keys distinct), a [mat_struct] (its [_fieldnames] with
    the attribute of each), an array of dtype object, any other array, a
    Python list, and scalars. *)
#[local] Unset Elimination Schemes.
Inductive pyval : Type :=
  | PDict (items : list (string * pyval))
  | PStruct (fields : list (string * pyval))
  | PObjArray (elems : list pyval)
  | PNumArray (elems : list Q)
  | PList (elems : list pyval)
  | PNum (q : Q)
  | PStr (s : string).
#[local] Set Elimination Schemes.

(** [out[k] = v] on a dict kept as the list of its items. *)
Fixpoint dict_set (k : string) (v : pyval) (out : list (string * pyval))
    : list (string * pyval) :=
  match out with
  | [] => [(k, v)]
  | (k', v') :: rest =>
      if String.eqb k' k then (k, v) :: rest else (k', v') :: dict_set k v rest
  end.

Fixpoint mat_struct_to_dict (matobj : pyval) : pyval :=
  match matobj with
  | PDict items =>
      PDict ((fix items_go (l : list (string * pyval)) :=
                match l with
                | [] => []
                | (k, v) :: rest => (k, mat_struct_to_dict v) :: items_go rest
                end) items)
  | PStruct fields =>
      PDict ((fix fields_go (l out : list (string * pyval)) :=
                match l with
                | [] => out
                | (field, v) :: rest =>
                    fields_go rest (dict_set field (mat_struct_to_dict v) out)
                end) fields [])
  | PObjArray elems =>
      PList ((fix elems_go (l : list pyval) :=
                match l with
                | [] => []
                | el :: rest => mat_struct_to_dict el :: elems_go rest
                end) elems)
  | _ => matobj
  end.

(** ** 7. Corpus statistics and features (compute_minmax, preprocess_cycle) *)

(** A cycle as the training pipeline holds it. *)
Record loaded_cycle : Type := {
  lc_voltage : list Q;
  lc_current : list Q;
  lc_temperature : list Q
}.

(** [(min, max)] per channel. *)
Record stats : Type := {
  s_voltage : Q * Q;
  s_current : Q * Q;
  s_temperature : Q * Q
}.

Definition Qmin2 (x y : Q) : Q := if Qle_bool x y then x else y.
Definition Qmax2 (x y : Q) : Q := if Qle_bool x y then y else x.

(** [np.min] and [np.max] raise on an array without elements. *)
Definition np_min (a : list Q) : result Q :=
  match a with
  | [] => Err ValueError
  | x :: rest => Ok (foldl Qmin2 x rest)
  end.

Definition np_max (a : list Q) : result Q :=
  match a with
  | [] => Err ValueError
  | x :: rest => Ok (foldl Qmax2 x rest)
  end.

Definition np_concatenate (arrays : list (list Q)) : result (list Q) :=
  match arrays with
  | [] => Err ValueError
  | _ => Ok (concat arrays)
  end.

(** One turn of [for key in ['voltage', 'current', 'temperature']]. *)
Definition channel_minmax (key : loaded_cycle -> list Q)
    (cycles : list loaded_cycle) : result (Q * Q) :=
  all_vals ← np_concatenate (map key cycles);
  lo ← np_min all_vals;
  hi ← np_max all_vals;
  Ok (lo, hi).

Definition compute_minmax (cycles : list loaded_cycle) : result stats :=
  v ← channel_minmax lc_voltage cycles;
  c ← channel_minmax lc_current cycles;
  t ← channel_minmax lc_temperature cycles;
  Ok {| s_voltage := v; s_current := c; s_temperature := t |}.





(** ** 8. Reading the table back (load_cycles_from_csv) *)

(** [[row[f'voltage_{j}'] for j in range(num_points)]]: a column that the
    table does not have raises. *)
Definition row_series {A : Type} (columns : list A) (num_points : nat)
    : result (list A) :=
  if (num_points <=? length columns)%nat then Ok (take num_points columns)
  else Err KeyError.

Definition row_cycle (r : row) (num_points : nat)
    : result (loaded_cycle * list xval) :=
  voltage ← row_series (r_voltage r) num_points;
  current ← row_series (r_current r) num_points;
  temperature ← row_series (r_temperature r) num_points;
  soc ← row_series (r_soc r) num_points;
  Ok ({| lc_voltage := voltage; lc_current := current;
         lc_temperature := temperature |}, soc).

(** [for idx, row in df.iterrows()], with the two lists accumulated so
    far. *)
Fixpoint load_rows (num_points max_cycles : nat) (df : list row)
    (all_cycles : list loaded_cycle) (all_socs : list (list xval))
    : result (list loaded_cycle * list (list xval)) :=
  match df with
  | [] => Ok (all_cycles, all_socs)
  | r :: rest =>
      '(cycle, soc) ← row_cycle r num_points;
      let all_cycles := all_cycles ++ [cycle] in
      let all_socs := all_socs ++ [soc] in
      if (max_cycles <=? length all_cycles)%nat then Ok (all_cycles, all_socs)
      else load_rows num_points max_cycles rest all_cycles all_socs
  end.

(** [df] is the data frame [pd.read_csv] returns.  [int(0.8 * n)] is
    [4 * n / 5] rounded down. *)
Definition load_cycles_from_csv (df : list row) (num_points max_cycles : nat)
    : result (list loaded_cycle * list (list xval)
              * list loaded_cycle * list (list xval)) :=
  '(all_cycles, all_socs) ← load_rows num_points max_cycles df [] [];
  let split_idx := (4 * length all_cycles / 5)%nat in
  Ok (take split_idx all_cycles, take split_idx all_socs,
      drop split_idx all_cycles, drop split_idx all_socs).

(** [pd.read_csv] of the file [df.to_csv(csv_path, index=False)] wrote
    from [rows]: a frame built from no row has no column, its file holds
    a line break only, and [pd.read_csv] raises.  Otherwise the frame is
    read back; the numbers are taken as written, the text of the file
    is not modelled. *)
Definition read_written_csv (rows : list row) : result (list row) :=
  match rows with
  | [] => Err EmptyDataError
  | _ => Ok rows
  end.

(** [load_cycles_from_csv(csv_path)] on the file written from [rows]. *)
Definition load_cycles_from_written (rows : list row)
    (num_points max_cycles : nat)
    : result (list loaded_cycle * list (list xval)
              * list loaded_cycle * list (list xval)) :=
  df ← read_written_csv rows;
  load_cycles_from_csv df num_points max_cycles.

(** ** 9. The baseline alone (ecm_baseline_eval) *)

(** The values of [simple_ecm] for a capacity other than zero, where
    every step is a finite number. *)
Fixpoint simple_ecm_values_from (soc : Q) (current : list Q)
    (delta_t capacity : Q) : list Q :=
  match current with
  | [] => []
  | c :: rest =>
      let soc := soc - (c * delta_t) / (capacity * 3600) in
      let soc := if Qltb soc 0 then 0 else if Qltb 1 soc then 1 else soc in
      soc :: simple_ecm_values_from soc rest delta_t capacity
  end.

Definition simple_ecm_values (current : list Q) (delta_t capacity : Q)
    : list Q :=
  simple_ecm_values_from 1 current delta_t capacity.

(** [1 - np.sum((preds - trues) ** 2)
       / np.sum((trues - np.mean(trues)) ** 2)] on arrays of numbers. *)
Definition r2_score (preds trues : list Q) : xval :=
  let ss_res := Qsum (zip_with (fun p t => square (p - t)) preds trues) in
  let mean := np_mean trues in
  let ss_tot :=
    xsum (map (fun t => let d := xsub (XFin t) mean in xmul d d) trues) in
  xsub (XFin 1) (xdiv (XFin ss_res) ss_tot).

(** The metrics of the baseline, from the concatenated predictions and
    true values: float64 arrays of numbers. *)
Definition eval_metrics (np_sqrt : xval -> xval) (preds trues : list Q)
    : metrics Q :=
  {| e_preds := preds;
     e_trues := trues;
     e_rmse := np_sqrt (np_mean (zip_with (fun p t => square (p - t)) preds trues));
     e_mae := np_mean (zip_with (fun p t => Qabs (p - t)) preds trues);
     e_r2 := r2_score preds trues |}.

(** [simple_ecm] is called with its defaults, a time step of one second
    and a capacity of two ampere-hours. *)
Definition ecm_baseline_eval (np_sqrt : xval -> xval)
    (val_cycles : list loaded_cycle) (val_soc : list (list Q))
    (num_points : nat) : result (metrics Q) :=
  let pairs := zip val_cycles val_soc in
  let preds :=
    map (fun p => anchor_resample (simple_ecm_values (lc_current (fst p)) 1 2)
                    num_points) pairs in
  let trues := map (fun p => anchor_resample (snd p) num_points) pairs in
  preds ← np_concatenate preds;
  trues ← np_concatenate trues;
  Ok (eval_metrics np_sqrt preds trues).

(** * Vocabulary of the properties *)

(** [xp] is the integer grid [j, j+1, ...], up to [==]. *)
Definition knots_at (xp : list Q) (j : nat) : Prop :=
  forall i k, xp !! i = Some k -> k == Qnat (j + i).

(** The four channels of a cycle, as [process_battery] resolves them. *)
Definition c_channel (c : cycle) (k1 k2 : string) : list Q :=
  channel (default ∅ (c_data c)) k1 k2.
Definition c_voltage (c : cycle) : list Q := c_channel c "Voltage_measured" "voltage".
Definition c_current (c : cycle) : list Q := c_channel c "Current_measured" "current".
Definition c_temperature (c : cycle) : list Q :=
  c_channel c "Temperature_measured" "temperature".
Definition c_time_channel (c : cycle) : list Q := c_channel c "Time" "time".

(** The retention rule in the words of the specification: a type tag
    equal to "discharge" without regard to case, and voltage and current
    channels of five samples or more. *)
Definition spec_retained (e : entry) : bool :=
  match e with
  | NotMapping => false
  | Mapping c =>
      String.eqb (lower (default "" (c_type c))) "discharge"
      && (5 <=? length (c_voltage c))%nat
      && (5 <=? length (c_current c))%nat
  end.

(** No channel of the entry has exactly one sample. *)
Definition sized_channels (e : entry) : Prop :=
  match e with
  | NotMapping => True
  | Mapping c =>
      length (c_voltage c) <> 1%nat /\ length (c_current c) <> 1%nat /\
      length (c_temperature c) <> 1%nat /\ length (c_time_channel c) <> 1%nat
  end.

(** The rows of the entries that [cycle_row] accepts, in order, the
    first entry being at position [i]. *)
Fixpoint retained_from (battery_id : string) (meta : battery_meta)
    (num_points : nat) (i : nat) (cycles : list entry) : list row :=
  match cycles with
  | [] => []
  | e :: rest =>
      match cycle_row battery_id meta num_points i e with
      | Ok (Some r) => r :: retained_from battery_id meta num_points (S i) rest
      | _ => retained_from battery_id meta num_points (S i) rest
      end
  end.

(** Not negative: a number that is not negative, plus infinity, or NaN. *)
Definition xnonneg (a : xval) : Prop :=
  match a with
  | XFin q => 0 <= q
  | XPInf | XNaN => True
  | XNInf => False
  end.

(** The coulomb and the boundary term of [physics_informed_loss]. *)
Definition coulomb_term (y_pred ecm_soc : list xval) : xval :=
  tf_reduce_mean (zip_with (fun p e => f_square (fsub p e)) y_pred ecm_soc).

Definition boundary_term (y_pred : list xval) : xval :=
  tf_reduce_mean
    (map (fun p => fadd (tf_relu (fsub p (XFin 1)))
                        (tf_relu (fsub (XFin 0) p))) y_pred).

(** Induction on a value together with the values nested in it. *)
Section pyval_induction.
Variable P : pyval -> Prop.
Hypothesis HDict :
  forall items, Forall (fun kv => P (snd kv)) items -> P (PDict items).
Hypothesis HStruct :
  forall fields, Forall (fun kv => P (snd kv)) fields -> P (PStruct fields).
Hypothesis HObjArray : forall elems, Forall P elems -> P (PObjArray elems).
Hypothesis HNumArray : forall elems, P (PNumArray elems).
Hypothesis HList : forall elems, Forall P elems -> P (PList elems).
Hypothesis HNum : forall q, P (PNum q).
Hypothesis HStr : forall s, P (PStr s).

Fixpoint pyval_nested_ind (x : pyval) : P x :=
  match x with
  | PDict items =>
      HDict items
        ((fix go (l : list (string * pyval)) : Forall (fun kv => P (snd kv)) l :=
            match l with
            | [] => @List.Forall_nil _ _
            | (k, v) :: rest =>
                @List.Forall_cons _ _ (k, v) rest (pyval_nested_ind v) (go rest)
            end) items)
  | PStruct fields =>
      HStruct fields
        ((fix go (l : list (string * pyval)) : Forall (fun kv => P (snd kv)) l :=
            match l with
            | [] => @List.Forall_nil _ _
            | (k, v) :: rest =>
                @List.Forall_cons _ _ (k, v) rest (pyval_nested_ind v) (go rest)
            end) fields)
  | PObjArray elems =>
      HObjArray elems
        ((fix go (l : list pyval) : Forall P l :=
            match l with
            | [] => @List.Forall_nil _ _
            | el :: rest => @List.Forall_cons _ _ el rest (pyval_nested_ind el) (go rest)
            end) elems)
  | PNumArray elems => HNumArray elems
  | PList elems =>
      HList elems
        ((fix go (l : list pyval) : Forall P l :=
            match l with
            | [] => @List.Forall_nil _ _
            | el :: rest => @List.Forall_cons _ _ el rest (pyval_nested_ind el) (go rest)
            end) elems)
  | PNum q => HNum q
  | PStr s => HStr s
  end.
End pyval_induction.

(** A value as [loadmat] returns it holds no Python list. *)
Fixpoint no_lists (x : pyval) : bool :=
  match x with
  | PDict items => forallb (fun kv => no_lists (snd kv)) items
  | PStruct fields => forallb (fun kv => no_lists (snd kv)) fields
  | PObjArray elems => forallb no_lists elems
  | PList _ => false
  | _ => true
  end.

(** A value without a [mat_struct] and without an array of objects at any
    depth. *)
Fixpoint converted (x : pyval) : bool :=
  match x with
  | PDict items => forallb (fun kv => converted (snd kv)) items
  | PStruct _ => false
  | PObjArray _ => false
  | PList elems => forallb converted elems
  | _ => true
  end.

(** A row with [L] columns or more for each series that is read back. *)
Definition wide_row (L : nat) (r : row) : Prop :=
  (L <= length (r_voltage r))%nat /\ (L <= length (r_current r))%nat /\
  (L <= length (r_temperature r))%nat /\ (L <= length (r_soc r))%nat.

(** The cycle and the target read from the first [L] columns of a row. *)
Definition row_cycle_of (r : row) (L : nat) : loaded_cycle * list xval :=
  ({| lc_voltage := take L (r_voltage r); lc_current := take L (r_current r);
      lc_temperature := take L (r_temperature r) |}, take L (r_soc r)).

(** A row with exactly [L] columns for each of its five series. *)
Definition full_row (L : nat) (r : row) : Prop :=
  length (r_voltage r) = L /\ length (r_current r) = L /\
  length (r_temperature r) = L /\ length (r_time r) = L /\
  length (r_soc r) = L.

(** A row that carries the identifier, the initial capacity and the fade
    of a battery of the metadata that is not marked unusable. *)
Definition row_of_battery (batteries : list (string * battery_meta))
    (r : row) : Prop :=
  exists meta, (r_battery_id r, meta) ∈ batteries /\
    default true (m_usable meta) = true /\
    r_cap_0 r = or_nan (m_c0 meta) /\
    r_fade r = or_nan (m_fade_in_percent meta).

(** [battery_meta.get("usable", True)] *)
Definition usable (bm : string * battery_meta) : bool :=
  default true (m_usable (snd bm)).

(** The cycle made of the whole series of a row. *)
Definition row_loaded (r : row) : loaded_cycle :=
  {| lc_voltage := r_voltage r; lc_current := r_current r;
     lc_temperature := r_temperature r |}.

(** A record file that yields no cycle list: absent, unreadable or
    without the cycle field. *)
Definition no_cycles (o : option mat_file) : Prop :=
  match o with
  | Some (Cycles _) => False
  | _ => True
  end.

(** The number of rows of a result, when there is one. *)
Definition rows_count (res : result (list row)) : option nat :=
  match res with
  | Ok rows => Some (length rows)
  | Err _ => None
  end.

(** ** Sample data *)

Definition no_discharge_meta : battery_meta :=
  {| m_usable := Some true; m_sub_dir := Some "data"; m_c0 := Some 2;
     m_fade_in_percent := None; m_discharge := None |}.

Definition sample_record (tag : string) (dat : gmap string (list Q)) : cycle :=
  {| c_type := Some tag; c_index := None; c_time := None;
     c_ambient_temperature := Some 24; c_data := Some dat |}.

Definition sample_cycle (tag : string) (dat : gmap string (list Q)) : entry :=
  Mapping (sample_record tag dat).

(** Five samples of voltage and current over forty seconds. *)
Definition five_samples : gmap string (list Q) :=
  {[ "Voltage_measured" := [42 # 10; 41 # 10; 40 # 10; 39 # 10; 38 # 10];
     "Current_measured" := [-2; -2; -2; -2; -2];
     "Temperature_measured" := [24; 25; 26; 27; 28];
     "Time" := [0; 10; 20; 30; 40] ]}.

(** The same without a time channel. *)
Definition no_time_channel : gmap string (list Q) :=
  {[ "Voltage_measured" := [42 # 10; 41 # 10; 40 # 10; 39 # 10; 38 # 10];
     "Current_measured" := [-2; -2; -2; -2; -2] ]}.

(** A time channel whose largest sample is not the last one. *)
Definition time_not_increasing : gmap string (list Q) :=
  {[ "Voltage_measured" := [42 # 10; 41 # 10; 40 # 10; 39 # 10; 38 # 10];
     "Current_measured" := [-2; -2; -2; -2; -2];
     "Time" := [0; 10; 5] ]}.

(** A voltage channel of a single sample. *)
Definition single_voltage : gmap string (list Q) :=
  {[ "Voltage_measured" := [42 # 10];
     "Current_measured" := [-2; -2; -2; -2; -2] ]}.

Definition one_battery_store (cycles : list entry) : gmap string mat_file :=
  {[ "/mat/data/B0005.mat" := Cycles cycles ]}.

(** A run is identified by its loss kind, its composition kind and the
    name of its model; the file it checkpoints to. *)
Record run_id : Type := {
  run_loss_type : string;
  run_ecm_in : bool;
  run_model_name : string
}.

Definition run_checkpoint (r : run_id) : string :=
  checkpoint_key (run_loss_type r) (run_model_name r).

Definition valid_loss_type (loss_type : string) : Prop :=
  loss_type = "mse" \/ loss_type = "physics".

(** A model for the examples: its weights count the gradient steps made,
    and step [w] predicts row [w] of a table of four-point curves.  The
    mean squares of rows 1 to 5 are 5, 3, 4, 2 and 6. *)
Definition toy_table : list (list Q) :=
  [[0; 0; 0; 0]; [4; 2; 0; 0]; [2; 2; 2; 0]; [4; 0; 0; 0]; [2; 2; 0; 0];
   [4; 2; 2; 0]].

Definition toy_forward (w : nat) (_ : unit) : list xval :=
  map XFin (nth w toy_table []).
Definition toy_adam (_ : Q) : unit := tt.
Definition toy_apply_gradients (o : unit) (w : nat) (_ : nat -> result xval)
    : unit * nat := (o, S w).

Definition toy_batch : batch unit :=
  {| b_cycles := 1; b_points := 4; b_features := tt;
     b_ecm_soc := map XFin [0; 0; 0; 0]; b_true_soc := map XFin [0; 0; 0; 0] |}.

Definition toy_train_model (files : gmap string nat) (model_name : string)
    (train_ds val_ds : list (batch unit)) (loss_type : string) (ecm_in : bool)
    (epochs : nat) : result (train_state nat unit) :=
  train_model toy_forward toy_adam toy_apply_gradients files 0%nat model_name
    train_ds val_ds loss_type ecm_in (1 # 10) (1 # 10) epochs (1 # 1000).

Definition toy_train_epochs (model_name : string)
    (train_ds val_ds : list (batch unit)) (loss_type : string) (ecm_in : bool)
    (epochs : nat) : result (train_state nat unit) :=
  train_epochs toy_forward toy_apply_gradients model_name loss_type ecm_in
    (1 # 10) (1 # 10) train_ds val_ds epochs
    (train_init toy_adam ∅ 0%nat (1 # 1000)).

(** A validation batch whose true values are all equal. *)
Definition flat_batch : batch unit :=
  {| b_cycles := 1; b_points := 4; b_features := tt;
     b_ecm_soc := map XFin [0; 0; 0; 0]; b_true_soc := map XFin [1; 1; 1; 1] |}.

(** A validation batch of two cycles. *)
Definition two_cycle_batch : batch unit :=
  {| b_cycles := 2; b_points := 4; b_features := tt;
     b_ecm_soc := map XFin [0; 0; 0; 0; 0; 0; 0; 0];
     b_true_soc := map XFin [1; 1; 1; 1; 0; 0; 0; 0] |}.

(** ** Proof steps *)

Ltac unfold_bind := unfold mbind, result_bind, rbind.

(** Case analysis on a channel having exactly one sample. *)
Ltac case_single l :=
  let E := fresh "E" in
  destruct (Nat.eqb_spec (length l) 1) as [E|E]; [try discriminate; try lia|].

(** * Properties *)

(** ** Comparisons on rationals *)

Lemma Qltb_lt (x y : Q) : Qltb x y = true <-> x < y.
Proof.
  unfold Qltb. rewrite negb_true_iff. split.
  - intros H. apply Qnot_le_lt. intros Hle.
    apply Qle_bool_iff in Hle. congruence.
  - intros H. destruct (Qle_bool y x) eqn:E; [|reflexivity].
    apply Qle_bool_iff in E. lra.
Qed.

Lemma Qltb_ge (x y : Q) : Qltb x y = false <-> y <= x.
Proof.
  unfold Qltb. rewrite negb_false_iff. apply Qle_bool_iff.
Qed.

Lemma Qnat_S (n : nat) : Qnat (S n) == Qnat n + 1.
Proof.
  unfold Qnat. rewrite Nat2Z.inj_succ. unfold Z.succ.
  rewrite inject_Z_plus. reflexivity.
Qed.

Lemma Qnat_nonneg (n : nat) : 0 <= Qnat n.
Proof.
  unfold Qnat. change 0 with (inject_Z 0). rewrite <- Zle_Qle. lia.
Qed.

Lemma Qnat_le (n m : nat) : (n <= m)%nat -> Qnat n <= Qnat m.
Proof. intros H. unfold Qnat. rewrite <- Zle_Qle. lia. Qed.

Lemma Qnat_pos (n : nat) : (0 < n)%nat -> 0 < Qnat n.
Proof.
  intros H. unfold Qnat. change 0 with (inject_Z 0). rewrite <- Zlt_Qlt. lia.
Qed.

(** ** The grids of [np.linspace] *)

Lemma np_linspace_length (start stop : Q) (num : nat) :
  length (np_linspace start stop num) = num.
Proof.
  destruct num as [|[|m]]; simpl; try reflexivity.
  rewrite length_app, length_map, length_seq. simpl. lia.
Qed.

Lemma knots_at_tail (x0 : Q) (xp : list Q) (j : nat) :
  knots_at (x0 :: xp) j -> knots_at xp (S j).
Proof.
  intros H i k Hi. rewrite (H (S i) k Hi).
  replace (j + S i)%nat with (S j + i)%nat by lia. reflexivity.
Qed.

Lemma knots_at_head (x0 : Q) (xp : list Q) (j : nat) :
  knots_at (x0 :: xp) j -> x0 == Qnat j.
Proof.
  intros H. rewrite (H 0%nat x0 eq_refl).
  replace (j + 0)%nat with j by lia. reflexivity.
Qed.

(** The knots [np.linspace(0, n-1, n)] of [anchor_resample] are the
    positions [0 .. n-1]. *)
Lemma original_indices_knots (n : nat) :
  (2 <= n)%nat -> knots_at (np_linspace 0 (Qnat (n - 1)) n) 0.
Proof.
  intros Hn. destruct n as [|[|m]]; [lia | lia |].
  replace (S (S m) - 1)%nat with (S m) by lia.
  intros i k Hi. cbn [np_linspace] in Hi.
  destruct (decide (i < S m)%nat) as [Hlt|Hge].
  - rewrite lookup_app_l in Hi by (rewrite length_map, length_seq; lia).
    rewrite list_lookup_fmap in Hi.
    rewrite lookup_seq_lt in Hi by lia. simpl in Hi.
    injection Hi as <-. simpl.
    assert (0 < Qnat (S m)) by (apply Qnat_pos; lia).
    field. lra.
  - rewrite lookup_app_r in Hi by (rewrite length_map, length_seq; lia).
    rewrite length_map, length_seq in Hi.
    destruct (i - S m)%nat as [|d] eqn:E; simpl in Hi; [|discriminate].
    injection Hi as <-. simpl.
    replace i with (S m) by lia. reflexivity.
Qed.

(** ** Interpolation on the integer grid *)

Lemma interp_search_step (x x0 x1 f0 f1 : Q) (xp fp : list Q) :
  interp_search x (x0 :: x1 :: xp) (f0 :: f1 :: fp) =
  if Qltb x x1 then
    if Qeq_bool x0 x then f0 else (f1 - f0) / (x1 - x0) * (x - x0) + f0
  else interp_search x (x1 :: xp) (f1 :: fp).
Proof. reflexivity. Qed.

(** At the first knot the first ordinate is returned. *)
Lemma interp_search_first (x x0 x1 f0 f1 : Q) (xp fp : list Q) (j : nat) :
  knots_at (x0 :: x1 :: xp) j -> x == Qnat j ->
  interp_search x (x0 :: x1 :: xp) (f0 :: f1 :: fp) = f0.
Proof.
  intros Hk Hx. rewrite interp_search_step.
  pose proof (knots_at_head _ _ _ Hk) as H0.
  pose proof (knots_at_head _ _ _ (knots_at_tail _ _ _ Hk)) as H1.
  rewrite Qnat_S in H1.
  assert (Qltb x x1 = true) as -> by (apply Qltb_lt; lra).
  assert (Qeq_bool x0 x = true) as -> by (apply Qeq_bool_iff; lra).
  reflexivity.
Qed.

(** At or beyond the last knot the last ordinate is returned. *)
Lemma interp_search_last (x : Q) (xp fp : list Q) (j : nat) :
  knots_at xp j -> length xp = length fp ->
  Qnat (j + length xp - 1) <= x ->
  interp_search x xp fp = default 0 (last fp).
Proof.
  revert fp j. induction xp as [|x0 xp IH]; intros fp j Hk Hlen Hx.
  - destruct fp; [reflexivity | discriminate].
  - destruct fp as [|f0 fp]; [discriminate|].
    destruct xp as [|x1 xp]; destruct fp as [|f1 fp]; try discriminate.
    + reflexivity.
    + rewrite interp_search_step.
      pose proof (knots_at_tail _ _ _ Hk) as Hk'.
      pose proof (knots_at_head _ _ _ Hk') as H1.
      assert (Qnat (S j) <= x) as Hle.
      { eapply Qle_trans; [|exact Hx]. apply Qnat_le. simpl. lia. }
      assert (Qltb x x1 = false) as -> by (apply Qltb_ge; lra).
      rewrite (IH (f1 :: fp) (S j) Hk').
      * reflexivity.
      * simpl in *. lia.
      * eapply Qle_trans; [|exact Hx]. apply Qnat_le. simpl. lia.
Qed.

(** Interpolation stays between the bounds of the ordinates. *)
Lemma interp_search_bounds (x lo hi : Q) (xp fp : list Q) (j : nat) :
  knots_at xp j -> length xp = length fp -> xp <> [] ->
  Forall (fun f => lo <= f /\ f <= hi) fp -> Qnat j <= x ->
  lo <= interp_search x xp fp /\ interp_search x xp fp <= hi.
Proof.
  revert fp j. induction xp as [|x0 xp IH]; intros fp j Hk Hlen Hne Hb Hx.
  - congruence.
  - destruct fp as [|f0 fp]; [discriminate|].
    apply Forall_cons in Hb as [Hf0 Hb].
    destruct xp as [|x1 xp]; destruct fp as [|f1 fp]; try discriminate.
    + simpl. exact Hf0.
    + rewrite interp_search_step.
      pose proof (knots_at_head _ _ _ Hk) as H0.
      pose proof (knots_at_tail _ _ _ Hk) as Hk'.
      pose proof (knots_at_head _ _ _ Hk') as H1.
      rewrite Qnat_S in H1.
      destruct (Qltb x x1) eqn:E1.
      * apply Qltb_lt in E1.
        destruct (Qeq_bool x0 x); [exact Hf0|].
        pose proof (Forall_inv Hb) as Hf1. simpl in Hf1.
        assert ((f1 - f0) / (x1 - x0) * (x - x0) + f0
                == (f1 - f0) * (x - Qnat j) + f0) as ->.
        { rewrite H0, H1. field. lra. }
        assert (0 <= x - Qnat j) by lra.
        assert (x - Qnat j <= 1) by lra.
        split; nra.
      * apply Qltb_ge in E1.
        apply (IH (f1 :: fp) (S j)); try assumption.
        -- simpl in *. lia.
        -- discriminate.
        -- rewrite Qnat_S. lra.
Qed.

Lemma np_interp1_bounds (x lo hi : Q) (xp fp : list Q) :
  knots_at xp 0 -> length xp = length fp -> xp <> [] ->
  Forall (fun f => lo <= f /\ f <= hi) fp ->
  lo <= np_interp1 x xp fp /\ np_interp1 x xp fp <= hi.
Proof.
  intros Hk Hlen Hne Hb. unfold np_interp1.
  destruct xp as [|x0 xp]; [congruence|].
  destruct fp as [|f0 fp]; [discriminate|].
  destruct (Qltb x x0) eqn:E.
  - exact (Forall_inv Hb).
  - apply Qltb_ge in E.
    apply (interp_search_bounds x lo hi (x0 :: xp) (f0 :: fp) 0);
      try assumption.
    rewrite <- (knots_at_head _ _ _ Hk). exact E.
Qed.

(** ** The resampler *)

Lemma anchor_resample_length (x : list Q) (num_points : nat) :
  length (anchor_resample x num_points) = num_points.
Proof.
  destruct x as [|x0 [|x1 x]]; simpl.
  - apply repeat_length.
  - apply repeat_length.
  - unfold np_interp. rewrite length_map. apply np_linspace_length.
Qed.

Lemma head_repeat (v : Q) (n : nat) : (1 <= n)%nat -> head (repeat v n) = Some v.
Proof. destruct n; [lia | reflexivity]. Qed.

Lemma last_repeat (v : Q) (n : nat) : (1 <= n)%nat -> last (repeat v n) = Some v.
Proof.
  induction n as [|[|n] IH]; intros H; [lia | reflexivity |].
  change (repeat v (S (S n))) with (v :: repeat v (S n)).
  rewrite last_cons, IH by lia. reflexivity.
Qed.

(** The first target position is [0], whatever the number of targets. *)
Lemma target_indices_head (hi : Q) (num : nat) :
  (1 <= num)%nat -> exists t, head (np_linspace 0 hi num) = Some t /\ t == 0.
Proof.
  intros H. destruct num as [|[|m]]; [lia | |].
  - eexists. split; [reflexivity|]. ring.
  - eexists. split; [reflexivity|]. simpl. unfold Qnat. simpl. ring.
Qed.

(** With two targets or more the last target position is [hi] itself. *)
Lemma target_indices_last (hi : Q) (num : nat) :
  (2 <= num)%nat -> last (np_linspace 0 hi num) = Some hi.
Proof.
  intros H. destruct num as [|[|m]]; [lia | lia |].
  cbn [np_linspace]. apply last_snoc.
Qed.

Lemma anchor_resample_head (x : list Q) (num_points : nat) :
  (1 <= num_points)%nat -> x <> [] ->
  head (anchor_resample x num_points) = head x.
Proof.
  intros HL Hx. destruct x as [|x0 [|x1 x]]; [congruence | |].
  - simpl. apply head_repeat, HL.
  - cbn [anchor_resample]. unfold np_interp.
    set (n := length (x0 :: x1 :: x)).
    assert (2 <= n)%nat as Hn by (subst n; simpl; lia).
    pose proof (original_indices_knots n Hn) as Hk.
    pose proof (np_linspace_length 0 (Qnat (n - 1)) n) as Hlen.
    destruct (target_indices_head (Qnat (n - 1)) num_points HL)
      as (t & Ht & Ht0).
    destruct (np_linspace 0 (Qnat (n - 1)) num_points) as [|t' ts];
      [discriminate|].
    injection Ht as ->. cbn [map head].
    destruct (np_linspace 0 (Qnat (n - 1)) n) as [|k0 [|k1 xp]];
      [subst n; discriminate | subst n; discriminate |].
    pose proof (knots_at_head _ _ _ Hk) as H0.
    change (Qnat 0) with 0 in H0.
    unfold np_interp1.
    assert (Qltb t k0 = false) as -> by (apply Qltb_ge; lra).
    rewrite (interp_search_first t k0 k1 x0 x1 xp x 0 Hk); [reflexivity|].
    exact Ht0.
Qed.

Lemma anchor_resample_last (x : list Q) (num_points : nat) :
  (2 <= num_points)%nat -> x <> [] ->
  last (anchor_resample x num_points) = last x.
Proof.
  intros HL Hx. destruct x as [|x0 [|x1 x]]; [congruence | |].
  - simpl. apply last_repeat. lia.
  - cbn [anchor_resample]. unfold np_interp.
    set (fp := x0 :: x1 :: x). set (n := length fp).
    assert (2 <= n)%nat as Hn by (subst n fp; simpl; lia).
    pose proof (original_indices_knots n Hn) as Hk.
    pose proof (np_linspace_length 0 (Qnat (n - 1)) n) as Hlen.
    change (map ?f ?l) with (f <$> l).
    rewrite fmap_last, (target_indices_last _ _ HL).
    cbn [fmap option_fmap option_map].
    set (xp := np_linspace 0 (Qnat (n - 1)) n) in *.
    assert (np_interp1 (Qnat (n - 1)) xp fp = default 0 (last fp)) as ->.
    { unfold np_interp1.
      destruct xp as [|k0 xp'] eqn:Exp; [subst n; discriminate|].
      subst fp. cbn [length] in *.
      pose proof (knots_at_head _ _ _ Hk) as H0.
      assert (Qltb (Qnat (n - 1)) k0 = false) as ->.
      { apply Qltb_ge. rewrite H0. apply Qnat_le. lia. }
      apply (interp_search_last _ _ _ 0 Hk).
      - subst n. exact Hlen.
      - apply Qnat_le. cbn [length]. lia. }
    subst fp. destruct (last (x0 :: x1 :: x)) eqn:E; [reflexivity|].
    apply last_None in E. discriminate.
Qed.

(** C7 (as amended).  For every sequence [x] and every target length
    [L >= 1] the resampler returns [L] values: all zero when [x] is empty,
    all [x[0]] when [x] has one element; the first value is [x[0]] when
    [x] is not empty, and the last value is [x[n-1]] when moreover
    [L >= 2] or [n = 1]. *)
Theorem anchor_resample_endpoints (x : list Q) (L : nat) :
  (1 <= L)%nat ->
  length (anchor_resample x L) = L /\
  (x = [] -> anchor_resample x L = repeat 0 L) /\
  (forall v, x = [v] -> anchor_resample x L = repeat v L) /\
  (x <> [] -> head (anchor_resample x L) = head x) /\
  (x <> [] -> (2 <= L)%nat \/ length x = 1%nat ->
   last (anchor_resample x L) = last x).
Proof.
  intros HL. split; [apply anchor_resample_length|].
  split; [intros ->; reflexivity|].
  split; [intros v ->; reflexivity|].
  split; [apply anchor_resample_head, HL|].
  intros Hx [H2|H1].
  - apply anchor_resample_last; assumption.
  - destruct x as [|x0 [|x1 x]]; [congruence | | discriminate].
    simpl. apply last_repeat, HL.
Qed.

Lemma anchor_resample_endpoints_witness :
  (1 <= 5)%nat /\
  length (anchor_resample [0; 10; 20] 5) = 5%nat /\
  head (anchor_resample [0; 10; 20] 5) = Some 0 /\
  last (anchor_resample [0; 10; 20] 5) = Some 20.
Proof.
  assert (1 <= 5)%nat as H by lia.
  destruct (anchor_resample_endpoints [0; 10; 20] 5 H) as (Hl & _ & _ & Hh & Ht).
  split; [exact H|]. split; [exact Hl|]. split.
  - apply Hh. discriminate.
  - apply Ht; [discriminate | left; lia].
Defined.

(** C7 as stated fails for [L = 1] on a longer input: the single value
    returned is [x[0]], not [x[n-1]]. *)
Lemma anchor_resample_single_target :
  anchor_resample [1; 2] 1 = [1] /\
  ~ (forall (x : list Q) (L : nat) (v w : Q), (1 <= L)%nat ->
       last x = Some v -> last (anchor_resample x L) = Some w -> w == v).
Proof.
  split; [reflexivity|]. intros H.
  assert (1 == 2) as Habs.
  { apply (H [1; 2] 1%nat 2 1); [lia | reflexivity | reflexivity]. }
  discriminate Habs.
Qed.

(** ** The coulomb-counting baseline *)

Lemma xclip_fin_unit (q : Q) : in_unit (xclip (XFin q) 0 1).
Proof.
  simpl. destruct (Qltb q 0) eqn:E0.
  - lra.
  - apply Qltb_ge in E0. destruct (Qltb 1 q) eqn:E1.
    + lra.
    + apply Qltb_ge in E1. lra.
Qed.

Lemma Qeq_bool_pos (q : Q) : 0 < q -> Qeq_bool q 0 = false.
Proof.
  intros Hq. destruct (Qeq_bool q 0) eqn:E; [|reflexivity].
  apply Qeq_bool_iff in E. lra.
Qed.

(** One step from a finite value is finite and clipped, when the sample
    is not NaN, the time step is positive and the divisor is positive. *)
Lemma simple_ecm_step (s : Q) (c : xval) (delta_t b : Q) :
  c <> XNaN -> 0 < delta_t -> 0 < b ->
  exists s',
    xclip (xsub (XFin s) (xdiv (xmul c (XFin delta_t)) (XFin b))) 0 1 = XFin s'
    /\ 0 <= s' /\ s' <= 1.
Proof.
  intros Hc Hd Hb.
  assert (Qltb b 0 = false) as Eb by (apply Qltb_ge; lra).
  assert (Qltb 0 delta_t = true) as Ed by (apply Qltb_lt; exact Hd).
  destruct c as [a| | |]; [| | |congruence].
  - cbn [xmul]. unfold xdiv. rewrite (Qeq_bool_pos b Hb).
    pose proof (xclip_fin_unit (s + - (a * delta_t / b))) as Hu.
    eexists. split; [reflexivity|]. exact Hu.
  - cbn [xmul]. unfold xinf_signed. rewrite (Qeq_bool_pos delta_t Hd), Ed.
    cbn [Bool.eqb xdiv]. rewrite Eb. exists 0. cbn. split; [reflexivity | lra].
  - cbn [xmul]. unfold xinf_signed. rewrite (Qeq_bool_pos delta_t Hd), Ed.
    cbn [Bool.eqb xdiv]. rewrite Eb. exists 1. cbn. split; [reflexivity | lra].
Qed.

Lemma simple_ecm_from_unit (current : list xval) (delta_t capacity s : Q) :
  0 < delta_t -> 0 < capacity ->
  Forall (fun c => c <> XNaN) current ->
  Forall in_unit (simple_ecm_from (XFin s) current delta_t capacity).
Proof.
  intros Hd Hc Hcur. revert s.
  induction Hcur as [|c rest Hn _ IH]; intros s.
  - constructor.
  - cbn [simple_ecm_from].
    destruct (simple_ecm_step s c delta_t (capacity * 3600) Hn Hd)
      as (s' & -> & Hs'); [lra|].
    constructor; [exact Hs' | apply IH].
Qed.

Lemma simple_ecm_from_length (current : list xval) (delta_t capacity : Q)
    (soc : xval) :
  length (simple_ecm_from soc current delta_t capacity) = length current.
Proof.
  revert soc. induction current as [|c rest IH]; intros soc; simpl;
    [reflexivity | f_equal; apply IH].
Qed.

(** C8 (as amended).  For every current trace without a NaN sample
    (negative, large and infinite samples included), every time step
    [delta_t > 0] and every capacity [> 0] for which [capacity * 3600]
    does not exceed the largest float64, the output of [simple_ecm] has
    the length of the trace and each of its elements is a number of
    [[0,1]].  The bound on the capacity keeps the divisor from
    overflowing to an infinity, where an infinite product over it would
    be NaN. *)
Theorem simple_ecm_unit_interval (current : list xval) (delta_t capacity : Q) :
  0 < delta_t -> 0 < capacity -> capacity * 3600 <= DBL_MAX ->
  Forall (fun c => c <> XNaN) current ->
  length (simple_ecm current delta_t capacity) = length current /\
  Forall in_unit (simple_ecm current delta_t capacity).
Proof.
  intros Hd Hc _ Hcur. split.
  - apply simple_ecm_from_length.
  - apply simple_ecm_from_unit; assumption.
Qed.

Lemma simple_ecm_unit_interval_witness :
  length (simple_ecm [XFin (-5); XFin 100000; XNInf; XFin 1; XPInf] 1 2)
  = 5%nat /\
  Forall in_unit (simple_ecm [XFin (-5); XFin 100000; XNInf; XFin 1; XPInf] 1 2).
Proof.
  apply (simple_ecm_unit_interval
           [XFin (-5); XFin 100000; XNInf; XFin 1; XPInf] 1 2).
  - lra.
  - lra.
  - apply Qle_bool_iff. vm_compute. reflexivity.
  - repeat constructor; discriminate.
Defined.

(** A NaN sample is not clipped away: it makes the estimate NaN from
    that sample on. *)
Lemma simple_ecm_nan_sample :
  0 < 1 /\ 0 < 2 /\
  simple_ecm [XFin 1; XNaN; XFin 1] 1 2 !! 1%nat = Some XNaN /\
  simple_ecm [XFin 1; XNaN; XFin 1] 1 2 !! 2%nat = Some XNaN /\
  ~ Forall in_unit (simple_ecm [XFin 1; XNaN; XFin 1] 1 2).
Proof.
  split; [lra|]. split; [lra|].
  split; [reflexivity|]. split; [reflexivity|].
  intros H. apply Forall_cons in H as [_ H].
  apply Forall_cons in H as [H _]. exact H.
Qed.

(** Without a capacity the invariant is lost as well: a zero capacity
    and a zero current give NaN. *)
Example simple_ecm_zero_capacity : simple_ecm [XFin 0] 1 0 = [XNaN].
Proof. reflexivity. Qed.

(** ** Floats *)

Lemma xeq_refl (a : xval) : xeq a a.
Proof. destruct a; simpl; [reflexivity | exact I..]. Qed.

Lemma xeq_sym (a b : xval) : xeq a b -> xeq b a.
Proof. destruct a, b; simpl; try tauto. intros H. symmetry. exact H. Qed.

Lemma xeq_trans (a b c : xval) : xeq a b -> xeq b c -> xeq a c.
Proof.
  destruct a, b, c; simpl; try tauto. intros H1 H2. rewrite H1. exact H2.
Qed.

#[global] Instance xeq_equivalence : Equivalence xeq.
Proof.
  split; [exact xeq_refl | exact xeq_sym | exact xeq_trans].
Qed.

#[global] Instance Qltb_comp : Proper (Qeq ==> Qeq ==> eq) Qltb.
Proof. intros p p' Hp q q' Hq. unfold Qltb. rewrite Hp, Hq. reflexivity. Qed.

Lemma Qle_bool_false (x y : Q) : Qle_bool x y = false <-> y < x.
Proof.
  rewrite <- (Qltb_lt y x). unfold Qltb.
  destruct (Qle_bool x y); simpl; split; congruence.
Qed.

#[global] Instance xopp_proper : Proper (xeq ==> xeq) xopp.
Proof.
  intros [p| | |] [p'| | |] Hp; simpl in *; try tauto. rewrite Hp. reflexivity.
Qed.

#[global] Instance xadd_proper : Proper (xeq ==> xeq ==> xeq) xadd.
Proof.
  intros [p| | |] [p'| | |] Hp [q| | |] [q'| | |] Hq; simpl in *; try tauto.
  rewrite Hp, Hq. reflexivity.
Qed.

#[global] Instance xsub_proper : Proper (xeq ==> xeq ==> xeq) xsub.
Proof. intros a a' Ha b b' Hb. unfold xsub. rewrite Ha, Hb. reflexivity. Qed.

Lemma xinf_signed_comp (p p' : Q) (pos : bool) :
  p == p' -> xinf_signed p pos = xinf_signed p' pos.
Proof.
  intros Hp. unfold xinf_signed.
  rewrite (Qltb_comp 0 0 (Qeq_refl 0) p p' Hp), Hp. reflexivity.
Qed.

#[global] Instance xmul_proper : Proper (xeq ==> xeq ==> xeq) xmul.
Proof.
  intros [p| | |] [p'| | |] Hp [q| | |] [q'| | |] Hq; simpl in *; try tauto;
    try (rewrite (xinf_signed_comp _ _ _ Hp); reflexivity);
    try (rewrite (xinf_signed_comp _ _ _ Hq); reflexivity).
  rewrite Hp, Hq. reflexivity.
Qed.

#[global] Instance xdiv_proper : Proper (xeq ==> xeq ==> xeq) xdiv.
Proof.
  intros [p| | |] [p'| | |] Hp [q| | |] [q'| | |] Hq; simpl in *; try tauto;
    try reflexivity; try (rewrite Hq; reflexivity).
  rewrite (xinf_signed_comp _ _ true Hp), Hq.
  destruct (Qeq_bool q' 0); [reflexivity|]. simpl. rewrite Hp, Hq. reflexivity.
Qed.

Lemma FLT_OVERFLOW_pos : 0 < FLT_OVERFLOW.
Proof. apply Qltb_lt. vm_compute. reflexivity. Qed.

(** A finite result overflows to an infinity or is kept. *)
Lemma f32_cases (q : Q) :
  (FLT_OVERFLOW <= q /\ f32 (XFin q) = XPInf) \/
  (q <= - FLT_OVERFLOW /\ f32 (XFin q) = XNInf) \/
  (- FLT_OVERFLOW < q /\ q < FLT_OVERFLOW /\ f32 (XFin q) = XFin q).
Proof.
  cbn [f32]. destruct (Qle_bool FLT_OVERFLOW q) eqn:E1.
  - left. apply Qle_bool_iff in E1. auto.
  - apply Qle_bool_false in E1.
    destruct (Qle_bool q (- FLT_OVERFLOW)) eqn:E2.
    + right. left. apply Qle_bool_iff in E2. auto.
    + apply Qle_bool_false in E2. right. right. auto.
Qed.

Lemma f32_in_range (q : Q) :
  - FLT_OVERFLOW < q -> q < FLT_OVERFLOW -> f32 (XFin q) = XFin q.
Proof.
  intros Hlo Hhi.
  destruct (f32_cases q) as [[H _]|[[H _]|(_ & _ & H)]]; [lra | lra | exact H].
Qed.

Lemma f32_zero (z : Q) : z == 0 -> f32 (XFin z) = XFin z.
Proof.
  intros Hz. pose proof FLT_OVERFLOW_pos. apply f32_in_range; lra.
Qed.

Lemma f32_finite (a : xval) (q : Q) :
  f32 a = XFin q -> a = XFin q /\ - FLT_OVERFLOW < q /\ q < FLT_OVERFLOW.
Proof.
  destruct a as [p| | |]; try discriminate. intros H.
  destruct (f32_cases p) as [[_ E]|[[_ E]|(Hlo & Hhi & E)]];
    rewrite E in H; try discriminate.
  injection H as <-. auto.
Qed.

#[global] Instance f32_proper : Proper (xeq ==> xeq) f32.
Proof.
  intros [p| | |] [p'| | |] Hp; simpl in Hp; try tauto; try exact I.
  pose proof FLT_OVERFLOW_pos as Hpos.
  destruct (f32_cases p) as [[H ->]|[[H ->]|(Hlo & Hhi & ->)]];
    destruct (f32_cases p') as [[H' ->]|[[H' ->]|(Hlo' & Hhi' & ->)]];
    simpl; try exact I; try exact Hp; lra.
Qed.

Lemma f32_opp (a : xval) : f32 (xopp a) = xopp (f32 a).
Proof.
  destruct a as [p| | |]; try reflexivity. cbn [xopp].
  pose proof FLT_OVERFLOW_pos as Hpos.
  destruct (f32_cases p) as [[H1 ->]|[[H1 ->]|(Hlo & Hhi & ->)]];
    destruct (f32_cases (- p)) as [[H2 ->]|[[H2 ->]|(Hlo' & Hhi' & ->)]];
    cbn [xopp]; try reflexivity; lra.
Qed.

#[global] Instance fadd_proper : Proper (xeq ==> xeq ==> xeq) fadd.
Proof. intros a a' Ha b b' Hb. unfold fadd. rewrite Ha, Hb. reflexivity. Qed.

#[global] Instance fsub_proper : Proper (xeq ==> xeq ==> xeq) fsub.
Proof. intros a a' Ha b b' Hb. unfold fsub. rewrite Ha, Hb. reflexivity. Qed.

#[global] Instance fmul_proper : Proper (xeq ==> xeq ==> xeq) fmul.
Proof. intros a a' Ha b b' Hb. unfold fmul. rewrite Ha, Hb. reflexivity. Qed.

#[global] Instance fdiv_proper : Proper (xeq ==> xeq ==> xeq) fdiv.
Proof. intros a a' Ha b b' Hb. unfold fdiv. rewrite Ha, Hb. reflexivity. Qed.

#[global] Instance tf_square_proper : Proper (xeq ==> xeq) f_square.
Proof. intros a a' Ha. unfold f_square. rewrite Ha. reflexivity. Qed.

(** Adding a zero changes no float32 value. *)
Lemma fadd_zero_r (a : xval) (z : Q) :
  z == 0 -> xeq (fadd (f32 a) (XFin z)) (f32 a).
Proof.
  intros Hz. unfold fadd. destruct (f32 a) as [q| | |] eqn:E;
    try (simpl; exact I).
  cbn [xadd]. destruct (f32_finite _ _ E) as (_ & Hlo & Hhi).
  rewrite <- (f32_in_range q Hlo Hhi).
  apply f32_proper. simpl. rewrite Hz. ring.
Qed.

Lemma xsub_swap (a b : xval) : xeq (xsub b a) (xopp (xsub a b)).
Proof.
  destruct a as [p| | |], b as [q| | |]; simpl; try exact I. ring.
Qed.

Lemma fsub_swap (a b : xval) : xeq (fsub b a) (xopp (fsub a b)).
Proof.
  unfold fsub. rewrite <- f32_opp. apply f32_proper, xsub_swap.
Qed.

Lemma tf_square_opp (a : xval) : xeq (f_square (xopp a)) (f_square a).
Proof.
  unfold f_square, fmul. apply f32_proper.
  destruct a as [p| | |]; simpl; try exact I. ring.
Qed.

Lemma tf_square_fsub_swap (a b : xval) :
  xeq (f_square (fsub a b)) (f_square (fsub b a)).
Proof.
  rewrite (fsub_swap a b). symmetry. apply tf_square_opp.
Qed.

Lemma foldl_fadd_xeq (l1 l2 : list xval) :
  Forall2 xeq l1 l2 ->
  forall a1 a2, xeq a1 a2 -> xeq (foldl fadd a1 l1) (foldl fadd a2 l2).
Proof.
  induction 1 as [|x y l1 l2 Hxy _ IH]; intros a1 a2 Ha; [exact Ha|].
  cbn [foldl]. apply IH. rewrite Ha, Hxy. reflexivity.
Qed.

Lemma tf_reduce_mean_xeq (l1 l2 : list xval) :
  Forall2 xeq l1 l2 -> xeq (tf_reduce_mean l1) (tf_reduce_mean l2).
Proof.
  intros H. unfold tf_reduce_mean, tf_reduce_sum.
  rewrite (Forall2_length _ _ _ H).
  apply fdiv_proper; [|reflexivity].
  apply foldl_fadd_xeq; [exact H | reflexivity].
Qed.

Lemma zip_with_swap_xeq (f g : xval -> xval -> xval) (a : list xval) :
  (forall x y, xeq (f x y) (g y x)) ->
  forall b, Forall2 xeq (zip_with f a b) (zip_with g b a).
Proof.
  intros Hfg. induction a as [|x a IH]; intros [|y b]; cbn [zip_with];
    try constructor; [apply Hfg | apply IH].
Qed.

(** The mean squared error does not depend on the order of its
    operands. *)
Lemma mse_loss_swap (y_true y_pred : list xval) :
  xeq (tf_reduce_mean
         (zip_with (fun p t => f_square (fsub p t)) y_pred y_true))
      (mse_loss y_true y_pred).
Proof.
  unfold mse_loss. apply tf_reduce_mean_xeq.
  apply (zip_with_swap_xeq (fun p t => f_square (fsub p t))
           (fun t p => f_square (fsub t p))).
  intros x y. apply tf_square_fsub_swap.
Qed.

(** *** Values that are not negative *)

Lemma f32_nonneg (a : xval) : xnonneg a -> xnonneg (f32 a).
Proof.
  destruct a as [q| | |]; try (simpl; tauto). intros Hq. simpl in Hq.
  pose proof FLT_OVERFLOW_pos as Hpos.
  destruct (f32_cases q) as [[_ ->]|[[H _]|(_ & _ & ->)]];
    [exact I | lra | exact Hq].
Qed.

Lemma xadd_nonneg (a b : xval) : xnonneg a -> xnonneg b -> xnonneg (xadd a b).
Proof. destruct a, b; simpl; try tauto. lra. Qed.

Lemma xinf_signed_nonneg (p : Q) : 0 <= p -> xnonneg (xinf_signed p true).
Proof.
  intros Hp. unfold xinf_signed. destruct (Qeq_bool p 0) eqn:E; [exact I|].
  apply Qeq_bool_neq in E.
  assert (Qltb 0 p = true) as -> by (apply Qltb_lt; lra). exact I.
Qed.

Lemma xdiv_nonneg (a : xval) (n : Q) :
  xnonneg a -> 0 <= n -> xnonneg (xdiv a (XFin n)).
Proof.
  intros Ha Hn. destruct a as [p| | |]; simpl in *; try tauto.
  - destruct (Qeq_bool n 0) eqn:E; [apply xinf_signed_nonneg, Ha|].
    apply Qeq_bool_neq in E. simpl. apply Qle_shift_div_l; lra.
  - assert (Qltb n 0 = false) as -> by (apply Qltb_ge, Hn). exact I.
Qed.

Lemma tf_square_nonneg (a : xval) : xnonneg (f_square a).
Proof.
  unfold f_square, fmul. apply f32_nonneg.
  destruct a as [q| | |]; simpl; try exact I. nra.
Qed.

Lemma tf_relu_nonneg (a : xval) : xnonneg (tf_relu a).
Proof.
  destruct a as [q| | |]; simpl; try exact I; try lra.
  destruct (Qltb 0 q) eqn:E; [apply Qltb_lt in E|]; lra.
Qed.

Lemma fadd_nonneg (a b : xval) : xnonneg a -> xnonneg b -> xnonneg (fadd a b).
Proof. intros Ha Hb. apply f32_nonneg, xadd_nonneg; assumption. Qed.

Lemma foldl_fadd_nonneg (l : list xval) :
  Forall xnonneg l -> forall a, xnonneg a -> xnonneg (foldl fadd a l).
Proof.
  induction 1 as [|x l Hx _ IH]; intros a Ha; [exact Ha|].
  cbn [foldl]. apply IH, fadd_nonneg; assumption.
Qed.

Lemma tf_reduce_sum_nonneg (l : list xval) :
  Forall xnonneg l -> xnonneg (tf_reduce_sum l).
Proof. intros Hl. apply foldl_fadd_nonneg; [exact Hl | simpl; lra]. Qed.

Lemma tf_reduce_mean_nonneg (l : list xval) :
  Forall xnonneg l -> xnonneg (tf_reduce_mean l).
Proof.
  intros Hl. unfold tf_reduce_mean, fdiv. apply f32_nonneg, xdiv_nonneg.
  - apply tf_reduce_sum_nonneg, Hl.
  - apply Qnat_nonneg.
Qed.

Lemma Forall_zip_with_nonneg (f : xval -> xval -> xval) (a b : list xval) :
  (forall x y, xnonneg (f x y)) -> Forall xnonneg (zip_with f a b).
Proof.
  intros Hf. revert b. induction a as [|x a IH]; intros [|y b];
    cbn [zip_with]; constructor; [apply Hf | apply IH].
Qed.

(** *** Sums of zeros *)

Lemma foldl_fadd_zeros (l : list xval) :
  Forall (fun x => xeq x (XFin 0)) l ->
  forall a, xeq a (XFin 0) -> xeq (foldl fadd a l) (XFin 0).
Proof.
  induction 1 as [|x l Hx _ IH]; intros a Ha; [exact Ha|].
  cbn [foldl]. apply IH. rewrite Ha, Hx. unfold fadd. cbn [xadd].
  rewrite f32_zero by ring. simpl. ring.
Qed.

Lemma tf_reduce_sum_zeros (l : list xval) :
  Forall (fun x => xeq x (XFin 0)) l -> xeq (tf_reduce_sum l) (XFin 0).
Proof. intros Hl. apply foldl_fadd_zeros; [exact Hl | reflexivity]. Qed.

(** The square of the difference of two equal numbers is zero. *)
Lemma tf_square_fsub_same (a b : xval) (c : Q) :
  xeq a (XFin c) -> xeq b (XFin c) -> xeq (f_square (fsub a b)) (XFin 0).
Proof.
  intros Ha Hb. rewrite Ha, Hb. unfold f_square, fmul, fsub. cbn [xsub xopp xadd].
  rewrite f32_zero by ring. cbn [xmul]. rewrite f32_zero by ring.
  simpl. ring.
Qed.

(** ** The losses *)

Lemma physics_informed_loss_terms (y_true y_pred ecm_soc : list xval)
    (alpha beta : Q) :
  physics_informed_loss y_true y_pred ecm_soc alpha beta =
  fadd (fadd (tf_reduce_mean
                (zip_with (fun p t => f_square (fsub p t)) y_pred y_true))
             (fmul (XFin alpha) (coulomb_term y_pred ecm_soc)))
       (fmul (XFin beta) (boundary_term y_pred)).
Proof. reflexivity. Qed.

(** C10 (as amended).  On a batch whose coulomb term and boundary term
    are finite numbers (no NaN or infinite value in them and no float32
    overflow), the physics-informed loss with [alpha = 0] and [beta = 0]
    is the plain mean squared error of the prediction and the target,
    whether this error is a number, an infinity or NaN. *)
Theorem physics_informed_loss_zero_weights (y_true y_pred ecm_soc : list xval) :
  xfinite (coulomb_term y_pred ecm_soc) = true ->
  xfinite (boundary_term y_pred) = true ->
  xeq (physics_informed_loss y_true y_pred ecm_soc 0 0) (mse_loss y_true y_pred).
Proof.
  intros Hc Hb. rewrite physics_informed_loss_terms.
  destruct (coulomb_term y_pred ecm_soc) as [c| | |]; try discriminate.
  destruct (boundary_term y_pred) as [b| | |]; try discriminate.
  unfold fmul at 1 2. cbn [xmul].
  rewrite !f32_zero by ring.
  rewrite <- mse_loss_swap.
  unfold tf_reduce_mean at 1 2, fdiv.
  set (M := xdiv _ _).
  transitivity (fadd (f32 M) (XFin (0 * c))).
  - unfold fadd at 1 2. apply fadd_zero_r. ring.
  - apply fadd_zero_r. ring.
Qed.

Lemma physics_informed_loss_zero_weights_witness :
  xeq (physics_informed_loss (map XFin [1; 0]) (map XFin [1 # 2; 3 # 2])
         (map XFin [1; 1 # 2]) 0 0)
      (mse_loss (map XFin [1; 0]) (map XFin [1 # 2; 3 # 2])).
Proof.
  apply (physics_informed_loss_zero_weights (map XFin [1; 0])
           (map XFin [1 # 2; 3 # 2]) (map XFin [1; 1 # 2]));
    vm_compute; reflexivity.
Defined.

(** The prediction [2^100], about [1.3e30], is a float32 and its square
    is not: the mean squared error is plus infinity, and with both
    weights zero the physics-informed loss is NaN, zero times
    infinity. *)
Lemma physics_informed_loss_overflow :
  mse_loss [XFin 0] [XFin (2 ^ 100)] = XPInf /\
  physics_informed_loss [XFin 0] [XFin (2 ^ 100)] [XFin 0] 0 0 = XNaN /\
  ~ xeq (physics_informed_loss [XFin 0] [XFin (2 ^ 100)] [XFin 0] 0 0)
        (mse_loss [XFin 0] [XFin (2 ^ 100)]).
Proof.
  assert (mse_loss [XFin 0] [XFin (2 ^ 100)] = XPInf) as Hm
    by (vm_compute; reflexivity).
  assert (physics_informed_loss [XFin 0] [XFin (2 ^ 100)] [XFin 0] 0 0 = XNaN)
    as Hp by (vm_compute; reflexivity).
  split; [exact Hm|]. split; [exact Hp|].
  rewrite Hm, Hp. simpl. tauto.
Qed.

(** ** The SOC-from-time curve *)

Lemma anchor_resample_bounds (x : list Q) (L : nat) (lo hi : Q) :
  x <> [] -> Forall (fun v => lo <= v /\ v <= hi) x ->
  Forall (fun v => lo <= v /\ v <= hi) (anchor_resample x L).
Proof.
  intros Hx Hb. destruct x as [|x0 [|x1 x]]; [congruence | |].
  - simpl. unfold np_full. apply Forall_forall. intros v Hv.
    apply list_elem_of_In, repeat_spec in Hv. subst v. exact (Forall_inv Hb).
  - cbn [anchor_resample]. unfold np_interp. apply Forall_forall.
    intros v Hv. apply list_elem_of_In, in_map_iff in Hv as (t & <- & _).
    apply np_interp1_bounds; try assumption.
    + apply original_indices_knots. simpl. lia.
    + apply np_linspace_length.
    + intros E. apply (f_equal length) in E.
      rewrite np_linspace_length in E. discriminate.
Qed.

Lemma soc_from_time_unit (time_r : list Q) (T : Q) :
  last time_r = Some T -> 0 < T ->
  Forall (fun t => 0 <= t /\ t <= T) time_r ->
  Forall in_unit (soc_from_time time_r).
Proof.
  intros Hl HT Hb. unfold soc_from_time. rewrite Hl. simpl.
  apply Forall_forall. intros v Hv.
  apply list_elem_of_In, in_map_iff in Hv as (t & <- & Ht).
  rewrite Forall_forall in Hb. apply list_elem_of_In in Ht.
  specialize (Hb t Ht). unfold xdiv.
  destruct (Qeq_bool T 0) eqn:E; [apply Qeq_bool_iff in E; lra|].
  simpl.
  assert (0 <= t / T) by (apply Qle_shift_div_l; lra).
  assert (t / T <= 1) by (apply Qle_shift_div_r; lra).
  lra.
Qed.

(** ** One entry of the cycle collection *)

Lemma py_len_squeeze (l : list Q) :
  py_len (np_squeeze l) =
  if (length l =? 1)%nat then Err TypeError else Ok (length l).
Proof. destruct l as [|a [|b l]]; reflexivity. Qed.

Lemma anchor_resample_nd_squeeze (l : list Q) (L : nat) :
  anchor_resample_nd (np_squeeze l) L =
  if (length l =? 1)%nat then Err TypeError else Ok (anchor_resample l L).
Proof. destruct l as [|a [|b l]]; reflexivity. Qed.

(** What an accepted entry looks like. *)
Lemma cycle_row_Some_inv (battery_id : string) (meta : battery_meta)
    (L i : nat) (e : entry) (r : row) :
  cycle_row battery_id meta L i e = Ok (Some r) ->
  exists c, e = Mapping c /\ spec_retained e = true /\
    r_time r = anchor_resample (c_time_channel c) L /\
    r_soc r = soc_from_time (r_time r).
Proof.
  destruct e as [|c]; [discriminate|]. intros H. exists c.
  split; [reflexivity|]. unfold cycle_row in H. cbn [spec_retained].
  destruct (String.eqb (lower (default "" (c_type c))) "discharge");
    [|discriminate].
  cbn [negb] in H.
  fold (c_channel c "Voltage_measured" "voltage") in H.
  fold (c_channel c "Current_measured" "current") in H.
  fold (c_channel c "Temperature_measured" "temperature") in H.
  fold (c_channel c "Time" "time") in H.
  fold (c_voltage c) (c_current c) (c_temperature c) (c_time_channel c) in H.
  rewrite !py_len_squeeze, !anchor_resample_nd_squeeze in H.
  unfold mbind, result_bind, rbind in H. cbn [andb].
  case_single (c_voltage c).
  destruct (length (c_voltage c) <? 5)%nat eqn:Ev; [discriminate|].
  case_single (c_current c).
  destruct (length (c_current c) <? 5)%nat eqn:Ec; [discriminate|].
  case_single (c_temperature c). case_single (c_time_channel c).
  injection H as <-. cbn [r_time r_soc].
  apply Nat.ltb_ge in Ev. apply Nat.ltb_ge in Ec.
  rewrite (proj2 (Nat.leb_le _ _) Ev), (proj2 (Nat.leb_le _ _) Ec).
  repeat split; reflexivity.
Qed.

(** An entry whose channels are no single samples is accepted when it
    meets the retention rule and skipped otherwise, without an error. *)
Lemma cycle_row_sized (battery_id : string) (meta : battery_meta)
    (L i : nat) (e : entry) :
  sized_channels e ->
  if spec_retained e
  then exists r, cycle_row battery_id meta L i e = Ok (Some r)
  else cycle_row battery_id meta L i e = Ok None.
Proof.
  destruct e as [|c]; [reflexivity|]. intros (Hv & Hc & Ht & Htm).
  unfold cycle_row. cbn [spec_retained].
  destruct (String.eqb (lower (default "" (c_type c))) "discharge");
    [|reflexivity].
  cbn [negb andb].
  fold (c_channel c "Voltage_measured" "voltage").
  fold (c_channel c "Current_measured" "current").
  fold (c_channel c "Temperature_measured" "temperature").
  fold (c_channel c "Time" "time").
  fold (c_voltage c) (c_current c) (c_temperature c) (c_time_channel c).
  rewrite !py_len_squeeze, !anchor_resample_nd_squeeze.
  unfold_bind.
  case_single (c_voltage c). case_single (c_current c).
  case_single (c_temperature c). case_single (c_time_channel c).
  rewrite !Nat.ltb_antisym.
  destruct (5 <=? length (c_voltage c))%nat; [|reflexivity].
  destruct (5 <=? length (c_current c))%nat; [|reflexivity].
  cbn [negb andb]. eexists. reflexivity.
Qed.

(** C4 (as amended).  For an accepted cycle whose raw time channel has
    all its samples between [0] and its last sample [T], with [T > 0],
    and for a target length of two or more, every element of the SOC
    curve of the row lies in [[0,1]]. *)
Theorem soc_curve_unit_interval (battery_id : string) (meta : battery_meta)
    (L i : nat) (c : cycle) (r : row) (T : Q) :
  cycle_row battery_id meta L i (Mapping c) = Ok (Some r) ->
  (2 <= L)%nat ->
  last (c_time_channel c) = Some T -> 0 < T ->
  Forall (fun t => 0 <= t /\ t <= T) (c_time_channel c) ->
  Forall in_unit (r_soc r).
Proof.
  intros Hrow HL Hlast HT Hb.
  apply cycle_row_Some_inv in Hrow as (c' & [= <-] & _ & Htime & ->).
  assert (c_time_channel c <> []) as Hne
    by (intros E; rewrite E in Hlast; discriminate).
  apply (soc_from_time_unit _ T); [|exact HT|].
  - rewrite Htime, anchor_resample_last by assumption. exact Hlast.
  - rewrite Htime. apply anchor_resample_bounds; assumption.
Qed.

Lemma soc_curve_unit_interval_witness :
  exists r,
    cycle_row "B0005" no_discharge_meta 3 0 (sample_cycle "Discharge" five_samples)
      = Ok (Some r) /\
    Forall in_unit (r_soc r).
Proof.
  eexists. split; [vm_compute; reflexivity|].
  apply (soc_curve_unit_interval "B0005" no_discharge_meta 3 0
           (sample_record "Discharge" five_samples) _ 40).
  - vm_compute. reflexivity.
  - lia.
  - vm_compute. reflexivity.
  - lra.
  - assert (c_time_channel (sample_record "Discharge" five_samples)
            = [0; 10; 20; 30; 40]) as -> by (vm_compute; reflexivity).
    repeat constructor; lra.
Defined.

(** C4 as stated fails on the very case it names: without a time channel
    the resampled time is all zero, the division is [0/0] and the curve
    is NaN throughout. *)
Lemma soc_curve_without_time :
  exists r,
    cycle_row "B0005" no_discharge_meta 3 0
      (sample_cycle "discharge" no_time_channel) = Ok (Some r) /\
    r_soc r = [XNaN; XNaN; XNaN] /\
    ~ Forall in_unit (r_soc r).
Proof.
  eexists. split; [vm_compute; reflexivity|]. split; [reflexivity|].
  intros H. apply Forall_inv in H. exact H.
Qed.

(** The curve also leaves the interval when a time sample exceeds the
    last one. *)
Example soc_curve_time_not_increasing :
  exists r,
    cycle_row "B0005" no_discharge_meta 3 0
      (sample_cycle "discharge" time_not_increasing) = Ok (Some r) /\
    Exists (fun v => in_unitb v = false) (r_soc r).
Proof.
  eexists. split; [vm_compute; reflexivity|].
  apply Exists_cons_tl, Exists_cons_hd. vm_compute. reflexivity.
Qed.

(** ** The loop over the cycle entries *)

Lemma MAX_CYCLES_pos : (0 < MAX_CYCLES)%nat.
Proof. unfold MAX_CYCLES. lia. Qed.

Lemma process_cycles_retained (battery_id : string) (meta : battery_meta)
    (L : nat) (cycles : list entry) :
  forall (i : nat) (results : list row),
    Forall sized_channels cycles ->
    (length results < MAX_CYCLES)%nat ->
    process_cycles battery_id meta L i cycles results =
    Ok (take MAX_CYCLES (results ++ retained_from battery_id meta L i cycles)).
Proof.
  induction cycles as [|e rest IH]; intros i results Hs Hlen.
  - cbn [process_cycles retained_from]. rewrite app_nil_r, take_ge by lia.
    reflexivity.
  - apply Forall_cons in Hs as [He Hs].
    cbn [process_cycles retained_from].
    pose proof (cycle_row_sized battery_id meta L i e He) as Hrow.
    destruct (spec_retained e).
    + destruct Hrow as [r ->]. unfold_bind.
      destruct (MAX_CYCLES <=? length (results ++ [r]))%nat eqn:E.
      * apply Nat.leb_le in E. rewrite length_app in E. cbn [length] in E.
        replace (results ++ r :: retained_from battery_id meta L (S i) rest)
          with ((results ++ [r]) ++ retained_from battery_id meta L (S i) rest)
          by (rewrite <- app_assoc; reflexivity).
        rewrite (take_app_length' (results ++ [r])); [reflexivity|].
        rewrite length_app. cbn [length]. lia.
      * apply Nat.leb_gt in E.
        rewrite (IH (S i) (results ++ [r]) Hs E), <- app_assoc. reflexivity.
    + rewrite Hrow. unfold_bind. apply IH; assumption.
Qed.

Lemma process_cycles_bound (battery_id : string) (meta : battery_meta)
    (L : nat) (cycles : list entry) :
  forall (i : nat) (results rows : list row),
    process_cycles battery_id meta L i cycles results = Ok rows ->
    (length results < MAX_CYCLES)%nat ->
    (length rows <= MAX_CYCLES)%nat.
Proof.
  induction cycles as [|e rest IH]; intros i results rows H Hlen.
  - injection H as <-. lia.
  - cbn [process_cycles] in H. unfold mbind, result_bind, rbind in H.
    destruct (cycle_row battery_id meta L i e) as [[r|]|err]; [| |discriminate].
    + destruct (MAX_CYCLES <=? length (results ++ [r]))%nat eqn:E.
      * injection H as <-. rewrite length_app. cbn [length]. lia.
      * apply Nat.leb_gt in E. exact (IH _ _ _ H E).
    + exact (IH _ _ _ H Hlen).
Qed.

Lemma process_battery_bound (fs : gmap string mat_file) (battery_id : string)
    (meta : battery_meta) (base_path : string) (L : nat) (rows : list row) :
  process_battery fs battery_id meta base_path L = Ok rows ->
  (length rows <= MAX_CYCLES)%nat.
Proof.
  unfold process_battery. intros H.
  destruct (m_sub_dir meta) as [sub_dir|]; [|discriminate].
  destruct (fs !! mat_path base_path sub_dir battery_id) as [[| |cycles]|];
    try (injection H as <-; cbn [length]; lia).
  apply (process_cycles_bound _ _ _ _ _ _ _ H). cbn [length].
  apply MAX_CYCLES_pos.
Qed.

(** What bounds the table: the cap less one, plus what one battery can
    add. *)
Lemma extract_batteries_bound (fs : gmap string mat_file) (mat_dir : string)
    (L max_cycles : nat) (batteries : list (string * battery_meta)) :
  forall (all_data rows : list row),
    extract_batteries fs mat_dir L max_cycles batteries all_data = Ok rows ->
    (length all_data <= max_cycles - 1)%nat ->
    (length rows <= max_cycles - 1 + MAX_CYCLES)%nat.
Proof.
  induction batteries as [|[battery_id meta] rest IH];
    intros all_data rows H Hlen.
  - injection H as <-. lia.
  - cbn [extract_batteries] in H.
    destruct (negb (default true (m_usable meta))); [exact (IH _ _ H Hlen)|].
    unfold mbind, result_bind, rbind in H.
    destruct (process_battery fs battery_id meta mat_dir L) as [data_rows|err]
      eqn:Eb; [|discriminate].
    apply process_battery_bound in Eb.
    destruct (max_cycles <=? length (all_data ++ data_rows))%nat eqn:E.
    + injection H as <-. rewrite length_app. lia.
    + apply Nat.leb_gt in E. apply (IH _ _ H). lia.
Qed.

Lemma preprocess_rows_bound (fs : gmap string mat_file) (mat_dir : string)
    (batteries : list (string * battery_meta)) (L max_cycles : nat)
    (rows : list row) :
  preprocess_and_save_csv fs mat_dir batteries L max_cycles = Ok rows ->
  (length rows <= max_cycles - 1 + MAX_CYCLES)%nat.
Proof.
  intros H. apply (extract_batteries_bound _ _ _ _ _ _ _ H). cbn [length]. lia.
Qed.

(** Once the table has reached the cap the remaining batteries are not
    read and the rows accepted so far are the result. *)
Lemma extract_batteries_stops (fs : gmap string mat_file) (mat_dir : string)
    (L max_cycles : nat) (battery_id : string) (meta : battery_meta)
    (rest : list (string * battery_meta)) (all_data data_rows : list row) :
  default true (m_usable meta) = true ->
  process_battery fs battery_id meta mat_dir L = Ok data_rows ->
  (max_cycles <= length (all_data ++ data_rows))%nat ->
  extract_batteries fs mat_dir L max_cycles ((battery_id, meta) :: rest) all_data
  = Ok (all_data ++ data_rows).
Proof.
  intros Hu Hp Hcap. cbn [extract_batteries]. rewrite Hu, Hp. cbn [negb].
  unfold_bind. apply Nat.leb_le in Hcap. rewrite Hcap. reflexivity.
Qed.

(** C1.  The table can hold more rows than [max_cycles]: with a cap of
    two, a single battery with three discharge cycles yields three rows. *)
Theorem preprocess_exceeds_max_cycles :
  exists rows,
    preprocess_and_save_csv
      (one_battery_store (repeat (sample_cycle "discharge" five_samples) 3))
      "/mat" [("B0005", no_discharge_meta)] 2 2 = Ok rows /\
    length rows = 3%nat /\ (2 < length rows)%nat.
Proof.
  eexists. split; [vm_compute; reflexivity|]. split; [reflexivity|].
  cbn [length]. lia.
Qed.

Lemma retained_from_length (battery_id : string) (meta : battery_meta)
    (L : nat) (cycles : list entry) :
  forall i, Forall sized_channels cycles ->
    length (retained_from battery_id meta L i cycles)
    = length (List.filter spec_retained cycles).
Proof.
  induction cycles as [|e rest IH]; intros i Hs; [reflexivity|].
  apply Forall_cons in Hs as [He Hs].
  cbn [retained_from List.filter].
  pose proof (cycle_row_sized battery_id meta L i e He) as Hrow.
  destruct (spec_retained e).
  - destruct Hrow as [r ->]. cbn [length]. f_equal. apply IH, Hs.
  - rewrite Hrow. apply IH, Hs.
Qed.

(** C9 (as amended).  In a battery whose cycle entries have no channel of
    exactly one sample, an entry is accepted by the loop body if and only
    if its type tag equals "discharge" without regard to case and its
    voltage and current channels have five samples or more, and is
    skipped without an error otherwise; the rows returned are those of
    the accepted entries, in order, up to the first [MAX_CYCLES] of
    them. *)
Theorem cycle_extractor_retention (battery_id : string) (meta : battery_meta)
    (L : nat) (cycles : list entry) :
  Forall sized_channels cycles ->
  (forall i e, e ∈ cycles ->
     if spec_retained e
     then exists r, cycle_row battery_id meta L i e = Ok (Some r)
     else cycle_row battery_id meta L i e = Ok None) /\
  process_cycles battery_id meta L 0 cycles []
    = Ok (take MAX_CYCLES (retained_from battery_id meta L 0 cycles)) /\
  length (take MAX_CYCLES (retained_from battery_id meta L 0 cycles))
    = Nat.min MAX_CYCLES (length (List.filter spec_retained cycles)).
Proof.
  intros Hs. split; [|split].
  - intros i e He. apply cycle_row_sized.
    rewrite Forall_forall in Hs. apply Hs, He.
  - rewrite (process_cycles_retained battery_id meta L cycles 0 [] Hs).
    + reflexivity.
    + apply MAX_CYCLES_pos.
  - rewrite length_take, (retained_from_length _ _ _ _ 0 Hs). reflexivity.
Qed.

Lemma cycle_extractor_retention_witness :
  Forall sized_channels
    [sample_cycle "charge" five_samples; sample_cycle "Discharge" five_samples;
     sample_cycle "impedance" five_samples;
     sample_cycle "discharge" no_time_channel; NotMapping] /\
  rows_count
    (process_cycles "B0005" no_discharge_meta 2 0
       [sample_cycle "charge" five_samples; sample_cycle "Discharge" five_samples;
        sample_cycle "impedance" five_samples;
        sample_cycle "discharge" no_time_channel; NotMapping] [])
  = Some 2%nat.
Proof.
  assert (Forall sized_channels
    [sample_cycle "charge" five_samples; sample_cycle "Discharge" five_samples;
     sample_cycle "impedance" five_samples;
     sample_cycle "discharge" no_time_channel; NotMapping]) as Hs.
  { repeat constructor; vm_compute; intros; discriminate. }
  split; [exact Hs|].
  destruct (cycle_extractor_retention "B0005" no_discharge_meta 2 _ Hs)
    as (_ & -> & _).
  vm_compute. reflexivity.
Defined.

(** C9 as stated fails in two places.  An entry tagged "discharge" whose
    voltage channel has a single sample is not skipped: [np.squeeze]
    turns the channel into a 0-d array and [len()] raises.  And past
    [MAX_CYCLES] accepted entries, further entries that meet the rule are
    not retained. *)
Lemma cycle_extractor_not_iff :
  (spec_retained (sample_cycle "discharge" single_voltage) = false /\
   process_cycles "B0005" no_discharge_meta 2 0
     [sample_cycle "discharge" single_voltage] [] = Err TypeError) /\
  (forallb spec_retained (repeat (sample_cycle "discharge" five_samples) 1001)
     = true /\
   rows_count
     (process_cycles "B0005" no_discharge_meta 1 0
        (repeat (sample_cycle "discharge" five_samples) 1001) [])
   = Some 1000%nat).
Proof.
  split; split; vm_compute; reflexivity.
Qed.

(** ** Checkpoint names *)

Lemma string_length_app (a b : string) :
  String.length (a +:+ b) = (String.length a + String.length b)%nat.
Proof. induction a as [|c a IH]; simpl; [reflexivity | f_equal; exact IH]. Qed.

Lemma string_app_inj_r (a b s : string) : a +:+ s = b +:+ s -> a = b.
Proof.
  revert b. induction a as [|c a IH]; intros [|c' b] H; simpl in H.
  - reflexivity.
  - apply (f_equal String.length) in H.
    rewrite ?string_length_app in H. simpl in H.
    rewrite ?string_length_app in H. lia.
  - apply (f_equal String.length) in H.
    rewrite ?string_length_app in H. simpl in H.
    rewrite ?string_length_app in H. lia.
  - injection H as -> H. f_equal. apply IH, H.
Qed.

Lemma checkpoint_key_inj (lt1 n1 lt2 n2 : string) :
  valid_loss_type lt1 -> valid_loss_type lt2 ->
  checkpoint_key lt1 n1 = checkpoint_key lt2 n2 -> lt1 = lt2 /\ n1 = n2.
Proof.
  intros [-> | ->] [-> | ->] H; unfold checkpoint_key in H; cbn in H;
    try discriminate; injection H as H;
    pose proof (string_app_inj_r n1 n2 ".weights.h5" H); auto.
Qed.

(** C2 (as amended).  The checkpoint file is named after the loss kind and
    the name of the model only: two runs whose loss kinds are "mse" or
    "physics" and that differ in loss kind or in model name checkpoint to
    different files. *)
Theorem checkpoint_key_by_loss_and_name (r1 r2 : run_id) :
  valid_loss_type (run_loss_type r1) -> valid_loss_type (run_loss_type r2) ->
  run_loss_type r1 <> run_loss_type r2 \/ run_model_name r1 <> run_model_name r2 ->
  run_checkpoint r1 <> run_checkpoint r2.
Proof.
  intros H1 H2 Hne Heq.
  destruct (checkpoint_key_inj _ _ _ _ H1 H2 Heq) as [Hl Hn].
  destruct Hne as [Hne | Hne]; contradiction.
Qed.

Lemma checkpoint_key_by_loss_and_name_witness :
  run_checkpoint {| run_loss_type := "mse"; run_ecm_in := true;
                    run_model_name := "dense" |}
  <> run_checkpoint {| run_loss_type := "physics"; run_ecm_in := true;
                       run_model_name := "dense" |}.
Proof.
  apply checkpoint_key_by_loss_and_name.
  - left. reflexivity.
  - right. reflexivity.
  - left. simpl. discriminate.
Defined.

(** C2 as stated fails: the composition kind is no part of the name.  Two
    runs that differ in it alone use one file, and the second run
    replaces the checkpoint of the first. *)
Lemma checkpoint_ignores_composition :
  {| run_loss_type := "mse"; run_ecm_in := false; run_model_name := "dense" |}
  <> {| run_loss_type := "mse"; run_ecm_in := true; run_model_name := "dense" |}
  /\
  run_checkpoint
    {| run_loss_type := "mse"; run_ecm_in := false; run_model_name := "dense" |}
  = run_checkpoint
    {| run_loss_type := "mse"; run_ecm_in := true; run_model_name := "dense" |}
  /\
  (st1 ← toy_train_model ∅ "dense" [toy_batch] [toy_batch] "mse" false 5;
   st2 ← toy_train_model (ts_files st1) "dense" [toy_batch] [toy_batch]
           "mse" true 1;
   Ok (ts_files st1 !! checkpoint_key "mse" "dense",
       ts_files st2 !! checkpoint_key "mse" "dense",
       size (ts_files st2)))
  = Ok (Some 4%nat, Some 1%nat, 1%nat).
Proof.
  split; [discriminate|]. split; [reflexivity|]. vm_compute. reflexivity.
Qed.

(** ** Comparisons on extended values *)

Lemma xltb_asym (a b : xval) : xltb a b = true -> xltb b a = false.
Proof.
  destruct a as [p| | |], b as [q| | |]; simpl; try reflexivity;
    try discriminate.
  intros H. apply Qltb_lt in H. apply Qltb_ge. lra.
Qed.

Lemma xltb_finite_inf (v : xval) : xfinite v = true -> xltb v XPInf = true.
Proof. destruct v; simpl; [reflexivity | discriminate..]. Qed.


(** ** The epoch loop *)

Section Trainer.

Context {W Opt F : Type}.
Variable forward : W -> F -> list xval.
Variable adam : Q -> Opt.
Variable apply_gradients : Opt -> W -> (W -> result xval) -> Opt * W.
Variables model_name loss_type : string.
Variable ecm_in : bool.
Variables alpha beta : Q.
Variables train_ds val_ds : list (batch F).

Local Abbreviation epoch :=
  (train_epoch forward apply_gradients model_name loss_type ecm_in alpha beta
     train_ds val_ds).
Local Abbreviation run :=
  (train_epochs forward apply_gradients model_name loss_type ecm_in alpha beta
     train_ds val_ds).
Local Abbreviation key := (checkpoint_key loss_type model_name).

Lemma train_epoch_inv (a b : train_state W Opt) :
  epoch a = Ok b ->
  exists v t,
    ts_val_loss_history b = ts_val_loss_history a ++ [v] /\
    ts_train_loss_history b = ts_train_loss_history a ++ [t] /\
    ts_best_val_loss b =
      (if xltb v (ts_best_val_loss a) then v else ts_best_val_loss a) /\
    ts_files b =
      (if xltb v (ts_best_val_loss a)
       then <[key := ts_weights b]> (ts_files a) else ts_files a).
Proof.
  unfold train_epoch. unfold_bind.
  destruct (train_batches _ _ _ _ _ _ _ _ _ _) as [[[o w] tl]|e];
    [|discriminate].
  destruct (val_batches _ _ _ _ _ _ _ _) as [vl|e] eqn:Ev; [|discriminate].
  intros [= <-]. exists (xmean vl), (xmean tl).
  repeat split; reflexivity.
Qed.

Lemma train_epochs_add (n m : nat) (a : train_state W Opt) :
  run (n + m)%nat a = rbind (run n a) (run m).
Proof.
  revert a. induction n as [|n IH]; intros a; [reflexivity|].
  cbn [Nat.add train_epochs]. unfold_bind.
  destruct (epoch a) as [a'|e]; [apply IH | reflexivity].
Qed.

Lemma train_epochs_one (a b : train_state W Opt) :
  run 1%nat a = Ok b -> epoch a = Ok b.
Proof.
  cbn [train_epochs]. unfold_bind. destruct (epoch a); [|discriminate].
  intros [= <-]. reflexivity.
Qed.

(** Each epoch adds one entry to each history. *)
Lemma run_history (n : nat) :
  forall a b : train_state W Opt, run n a = Ok b ->
    exists vs ts, length vs = n /\ length ts = n /\
      ts_val_loss_history b = ts_val_loss_history a ++ vs /\
      ts_train_loss_history b = ts_train_loss_history a ++ ts.
Proof.
  induction n as [|n IH]; intros a b H.
  - injection H as <-. exists [], []. rewrite !app_nil_r. auto.
  - cbn [train_epochs] in H. unfold mbind, result_bind, rbind in H.
    destruct (epoch a) as [a'|e] eqn:E; [|discriminate].
    apply train_epoch_inv in E as (v & t & Hv & Ht & _).
    destruct (IH _ _ H) as (vs & ts & Hlv & Hlt & Hvs & Hts).
    exists (v :: vs), (t :: ts). cbn [length].
    rewrite Hvs, Hv, Hts, Ht, <- !app_assoc. auto.
Qed.

(** The best loss is the initial one or one of the losses seen. *)
Lemma run_best (n : nat) :
  forall a b : train_state W Opt, run n a = Ok b ->
    ts_best_val_loss b = ts_best_val_loss a \/
    exists j, (j < n)%nat /\
      ts_val_loss_history b !! (length (ts_val_loss_history a) + j)%nat
      = Some (ts_best_val_loss b).
Proof.
  induction n as [|n IH]; intros a b H.
  - injection H as <-. left. reflexivity.
  - cbn [train_epochs] in H. unfold mbind, result_bind, rbind in H.
    destruct (epoch a) as [a'|e] eqn:E; [|discriminate].
    apply train_epoch_inv in E as (v & t & Hv & _ & Hbest & _).
    destruct (run_history _ _ _ H) as (vs & _ & _ & _ & Hvs & _).
    destruct (IH _ _ H) as [Hb | (j & Hj & Hl)].
    + rewrite Hb, Hbest. destruct (xltb v (ts_best_val_loss a)); [|auto].
      right. exists 0%nat. split; [lia|].
      rewrite Hvs, Hv, <- app_assoc, Nat.add_0_r.
      rewrite lookup_app_r by lia. rewrite Nat.sub_diag. reflexivity.
    + right. exists (S j). split; [lia|].
      rewrite <- Hl, Hv, length_app. cbn [length]. f_equal. lia.
Qed.

(** Epochs whose validation loss is not below the best leave the best
    loss and the files as they are. *)
Lemma run_no_improvement (m : nat) :
  forall b st : train_state W Opt, run m b = Ok st ->
    (forall j v, (length (ts_val_loss_history b) <= j)%nat ->
       ts_val_loss_history st !! j = Some v ->
       xltb v (ts_best_val_loss b) = false) ->
    ts_files st = ts_files b /\ ts_best_val_loss st = ts_best_val_loss b.
Proof.
  induction m as [|m IH]; intros b st H Hno.
  - injection H as <-. auto.
  - cbn [train_epochs] in H. unfold mbind, result_bind, rbind in H.
    destruct (epoch b) as [b'|e] eqn:E; [|discriminate].
    apply train_epoch_inv in E as (v & t & Hv & _ & Hbest & Hfiles).
    destruct (run_history _ _ _ H) as (vs & _ & _ & _ & Hvs & _).
    assert (xltb v (ts_best_val_loss b) = false) as Hlt.
    { apply (Hno (length (ts_val_loss_history b))); [lia|].
      rewrite Hvs, Hv, <- app_assoc.
      rewrite lookup_app_r by lia. rewrite Nat.sub_diag. reflexivity. }
    rewrite Hlt in Hbest, Hfiles.
    destruct (IH _ _ H) as [Hf Hb].
    + intros j v' Hj Hl. rewrite Hbest. apply (Hno j v'); [|exact Hl].
      rewrite Hv, length_app in Hj. lia.
    + split; congruence.
Qed.

(** The weights restored are those of the first epoch whose validation
    loss is below plus infinity, below every earlier loss and not above
    any later one. *)
Lemma train_model_restores_first_best (files : gmap string W) (w : W) (lr : Q)
    (epochs k : nat) (st stk : train_state W Opt) (vk : xval) :
  (k < epochs)%nat ->
  run epochs (train_init adam files w lr) = Ok st ->
  run (S k) (train_init adam files w lr) = Ok stk ->
  ts_val_loss_history st !! k = Some vk ->
  xltb vk XPInf = true ->
  (forall j vj, (j < k)%nat -> ts_val_loss_history st !! j = Some vj ->
     xltb vk vj = true) ->
  (forall j vj, (k < j)%nat -> ts_val_loss_history st !! j = Some vj ->
     xltb vj vk = false) ->
  exists final,
    train_model forward adam apply_gradients files w model_name
      train_ds val_ds loss_type ecm_in alpha beta epochs lr = Ok final /\
    ts_weights final = ts_weights stk /\
    ts_val_loss_history final = ts_val_loss_history st /\
    ts_train_loss_history final = ts_train_loss_history st.
Proof.
  intros Hk Hst Hstk Hvk Hnum Hbefore Hafter.
  pose proof Hst as Hst'.
  replace epochs with (S k + (epochs - S k))%nat in Hst' by lia.
  rewrite train_epochs_add, Hstk in Hst'. cbn [rbind] in Hst'.
  replace (S k) with (k + 1)%nat in Hstk by lia.
  rewrite train_epochs_add in Hstk.
  destruct (run k (train_init adam files w lr)) as [a|e] eqn:Ha;
    [|discriminate].
  cbn [rbind] in Hstk. apply train_epochs_one in Hstk.
  destruct (run_history _ _ _ Ha) as (vsa & _ & Hla & _ & Hva & _).
  cbn [train_init ts_val_loss_history app] in Hva.
  destruct (train_epoch_inv _ _ Hstk)
    as (v & t & Hv & _ & Hbest & Hfiles).
  destruct (run_history _ _ _ Hst') as (vs' & _ & _ & _ & Hvst & _).
  assert (length (ts_val_loss_history a) = k) as Hlen by congruence.
  assert (v = vk) as ->.
  { rewrite Hvst, Hv, <- app_assoc in Hvk.
    rewrite lookup_app_r in Hvk by lia.
    rewrite Hlen, Nat.sub_diag in Hvk. injection Hvk as ->. reflexivity. }
  assert (xltb vk (ts_best_val_loss a) = true) as Himp.
  { destruct (run_best _ _ _ Ha) as [Hb | (j & Hj & Hl)].
    - rewrite Hb. exact Hnum.
    - cbn [train_init ts_val_loss_history length Nat.add] in Hl.
      apply (Hbefore j); [lia|].
      rewrite Hvst, Hv, <- app_assoc. rewrite lookup_app_l by lia.
      exact Hl. }
  rewrite Himp in Hbest, Hfiles.
  destruct (run_no_improvement _ _ _ Hst') as [Hf _].
  { intros j v' Hj Hl. rewrite Hbest. apply (Hafter j); [|exact Hl].
    rewrite Hv, length_app in Hj. cbn [length] in Hj. lia. }
  unfold train_model. rewrite Hst. unfold_bind.
  rewrite Hf, Hfiles, lookup_insert_eq.
  eexists. split; [reflexivity|]. cbn. auto.
Qed.

(** *** Runs with a valid loss kind never stop early *)

Lemma batch_loss_valid (b : batch F) (w : W) :
  valid_loss_type loss_type ->
  exists v, batch_loss forward loss_type ecm_in alpha beta b w = Ok v.
Proof.
  intros [-> | ->]; unfold batch_loss; simpl; eexists; reflexivity.
Qed.

Lemma train_batches_valid (ds : list (batch F)) :
  valid_loss_type loss_type ->
  forall o w tl, exists r,
    train_batches forward apply_gradients loss_type ecm_in alpha beta
      ds o w tl = Ok r.
Proof.
  intros Hv. induction ds as [|b ds IH]; intros o w tl.
  - eexists. reflexivity.
  - cbn [train_batches]. destruct (batch_loss_valid b w Hv) as [v ->].
    unfold_bind. destruct (apply_gradients _ _ _) as [o' w']. apply IH.
Qed.

Lemma val_batches_valid (ds : list (batch F)) :
  valid_loss_type loss_type ->
  forall w vl, exists r,
    val_batches forward loss_type ecm_in alpha beta ds w vl = Ok r.
Proof.
  intros Hv. induction ds as [|b ds IH]; intros w vl.
  - eexists. reflexivity.
  - cbn [val_batches]. destruct (batch_loss_valid b w Hv) as [v ->].
    unfold_bind. apply IH.
Qed.

Lemma train_epoch_valid (a : train_state W Opt) :
  valid_loss_type loss_type -> exists b, epoch a = Ok b.
Proof.
  intros Hv. unfold train_epoch.
  destruct (train_batches_valid train_ds Hv (ts_opt a) (ts_weights a) [])
    as [[[o w] tl] ->].
  unfold_bind. destruct (val_batches_valid val_ds Hv w []) as [vl ->].
  eexists. reflexivity.
Qed.

Lemma run_valid (n : nat) :
  valid_loss_type loss_type ->
  forall a : train_state W Opt, exists b, run n a = Ok b.
Proof.
  intros Hv. induction n as [|n IH]; intros a.
  - eexists. reflexivity.
  - cbn [train_epochs]. destruct (train_epoch_valid a Hv) as [a' ->].
    unfold_bind. apply IH.
Qed.

(** C3 (as amended).  Every training run of at least one epoch with loss
    kind "mse" or "physics" completes its epochs, and if the mean
    validation loss of one epoch is a finite number strictly below that
    of every other epoch, [train_model] returns with the weights the
    model had at the end of that epoch, whatever the last epoch left. *)
Theorem train_model_restores_best (files : gmap string W) (w : W) (lr : Q)
    (epochs : nat) :
  valid_loss_type loss_type -> (1 <= epochs)%nat ->
  exists st,
    run epochs (train_init adam files w lr) = Ok st /\
    length (ts_val_loss_history st) = epochs /\
    forall k vk,
      ts_val_loss_history st !! k = Some vk ->
      xfinite vk = true ->
      (forall j vj, j <> k -> ts_val_loss_history st !! j = Some vj ->
         xltb vk vj = true) ->
      exists stk final,
        run (S k) (train_init adam files w lr) = Ok stk /\
        train_model forward adam apply_gradients files w model_name
          train_ds val_ds loss_type ecm_in alpha beta epochs lr = Ok final /\
        ts_weights final = ts_weights stk /\
        ts_val_loss_history final = ts_val_loss_history st /\
        ts_train_loss_history final = ts_train_loss_history st.
Proof.
  intros Hv _.
  destruct (run_valid epochs Hv (train_init adam files w lr)) as [st Hst].
  exists st. split; [exact Hst|].
  destruct (run_history _ _ _ Hst) as (vs & _ & Hlv & _ & Hvs & _).
  cbn [train_init ts_val_loss_history app] in Hvs.
  split; [congruence|].
  intros k vk Hvk Hnum Hmin.
  assert (k < epochs)%nat as Hk.
  { apply lookup_lt_Some in Hvk. rewrite Hvs, Hlv in Hvk. exact Hvk. }
  destruct (run_valid (S k) Hv (train_init adam files w lr)) as [stk Hstk].
  destruct (train_model_restores_first_best files w lr epochs k st stk vk)
    as (final & Hfinal); try assumption.
  - apply xltb_finite_inf, Hnum.
  - intros j vj Hj. apply Hmin. lia.
  - intros j vj Hj Hl. apply xltb_asym. apply (Hmin j); [lia | exact Hl].
  - exists stk, final. split; [exact Hstk | exact Hfinal].
Qed.


End Trainer.

Lemma train_model_restores_best_witness :
  exists final last,
    toy_train_model ∅ "dense" [toy_batch] [toy_batch] "mse" false 5 = Ok final /\
    toy_train_epochs "dense" [toy_batch] [toy_batch] "mse" false 5 = Ok last /\
    ts_val_loss_history final
    = [XFin (20 # 4); XFin (12 # 4); XFin (16 # 4); XFin (8 # 4); XFin (24 # 4)] /\
    ts_weights final = 4%nat /\ ts_weights last = 5%nat.
Proof.
  assert (exists st,
            toy_train_epochs "dense" [toy_batch] [toy_batch] "mse" false 5 = Ok st /\
            ts_val_loss_history st
            = [XFin (20 # 4); XFin (12 # 4); XFin (16 # 4); XFin (8 # 4);
               XFin (24 # 4)] /\
            ts_weights st = 5%nat) as (st0 & Hst0 & Hvh & Hlast)
    by (eexists; split; [|split]; vm_compute; reflexivity).
  assert (exists stk,
            toy_train_epochs "dense" [toy_batch] [toy_batch] "mse" false 4 = Ok stk /\
            ts_weights stk = 4%nat) as (stk0 & Hstk0 & Hw)
    by (eexists; split; vm_compute; reflexivity).
  pose proof Hst0 as Hrun.
  unfold toy_train_epochs in Hrun, Hstk0. unfold toy_train_model.
  destruct (train_model_restores_best toy_forward toy_adam toy_apply_gradients
              "dense" "mse" false (1 # 10) (1 # 10) [toy_batch] [toy_batch]
              ∅ 0%nat (1 # 1000) 5)
    as (st & Hst & _ & Hbest).
  - left. reflexivity.
  - lia.
  - rewrite Hrun in Hst. injection Hst as <-.
    destruct (Hbest 3%nat (XFin (8 # 4))) as (stk & final & Hstk & Hfinal & Hwf & Hvf & _).
    + rewrite Hvh. reflexivity.
    + reflexivity.
    + intros j vj Hj Hl. rewrite Hvh in Hl.
      destruct j as [|[|[|[|[|j]]]]]; try discriminate Hl; try lia;
        injection Hl as <-; reflexivity.
    + rewrite Hstk0 in Hstk. injection Hstk as <-.
      exists final, st0. split; [exact Hfinal|]. split; [exact Hst0|].
      split; [congruence|]. split; [congruence | exact Hlast].
Defined.

(** When no epoch has a loss below plus infinity nothing is saved and the
    final [load_weights] fails: here the validation set is empty, the
    mean validation loss of the only epoch is NaN, and the run ends in an
    error with no snapshot to restore. *)
Lemma train_model_nothing_to_restore :
  (exists st,
     toy_train_epochs "dense" [toy_batch] [] "mse" false 1 = Ok st /\
     ts_val_loss_history st = [XNaN] /\
     ts_files st !! checkpoint_key "mse" "dense" = None) /\
  toy_train_model ∅ "dense" [toy_batch] [] "mse" false 1
  = Err FileNotFoundError.
Proof.
  split; [|vm_compute; reflexivity].
  eexists. split; [vm_compute; reflexivity|]. split; reflexivity.
Qed.



(** ** The coefficient of determination *)

(** C5 (as amended).  [evaluate_model] does not test the denominator of
    R2.  When the batches can be concatenated, all the true values are
    equal and their mean is computed exactly, the sum of the squared
    deviations is zero and the evaluation raises nothing: it returns the
    quotient as numpy computes it, R2 being NaN or minus infinity.  Of
    [np.sum] this uses that a sum of zeros is zero and that a sum of
    values that are not negative is not negative. *)
Theorem r2_zero_variance_unguarded {W F : Type} (forward : W -> F -> list xval)
    (np_sqrt : xval -> xval) (np_sum32 np_mean32 : list xval -> xval)
    (w : W) (val_ds : list (batch F)) (ecm_in : bool) (c : Q) :
  (forall l, Forall (fun x => xeq x (XFin 0)) l -> xeq (np_sum32 l) (XFin 0)) ->
  (forall l, Forall xnonneg l -> xnonneg (np_sum32 l)) ->
  concatenable (map squeezed_shape val_ds) = true ->
  Forall (fun t => xeq t (XFin c)) (concat (map b_true_soc val_ds)) ->
  xeq (np_mean32 (concat (map b_true_soc val_ds))) (XFin c) ->
  exists m,
    evaluate_model forward np_sqrt np_sum32 np_mean32 w val_ds ecm_in = Ok m /\
    (e_r2 m = XNaN \/ e_r2 m = XNInf).
Proof.
  intros Hzeros Hnonneg Hshape Hc Hmean. unfold evaluate_model.
  rewrite Hshape. eexists. split; [reflexivity|]. cbn [e_r2].
  set (preds := concat (map (batch_pred_soc forward ecm_in w) val_ds)).
  set (trues := concat (map b_true_soc val_ds)) in *.
  assert (xnonneg (np_sum32
            (zip_with (fun p t => f_square (fsub p t)) preds trues))) as Hres.
  { apply Hnonneg, Forall_zip_with_nonneg. intros x y. apply tf_square_nonneg. }
  assert (xeq (np_sum32
            (map (fun t => f_square (fsub t (np_mean32 trues))) trues))
            (XFin 0)) as Htot.
  { apply Hzeros. apply Forall_forall. intros v Hv.
    apply list_elem_of_In, in_map_iff in Hv as (t & <- & Ht).
    rewrite Forall_forall in Hc. apply list_elem_of_In in Ht.
    apply (tf_square_fsub_same _ _ c); [apply Hc, Ht | exact Hmean]. }
  destruct (np_sum32 (map _ trues)) as [d| | |]; simpl in Htot;
    try contradiction.
  assert (Qeq_bool d 0 = true) as Ed by (apply Qeq_bool_iff, Htot).
  assert (Qltb d 0 = false) as Ed' by (apply Qltb_ge; lra).
  destruct (np_sum32 (zip_with _ preds trues)) as [s| | |]; simpl in Hres;
    try contradiction.
  - unfold fdiv. cbn [xdiv]. rewrite Ed. unfold xinf_signed.
    destruct (Qeq_bool s 0) eqn:Es; [left; reflexivity|].
    apply Qeq_bool_neq in Es.
    assert (Qltb 0 s = true) as -> by (apply Qltb_lt; lra).
    right. reflexivity.
  - unfold fdiv. cbn [xdiv]. rewrite Ed'. right. reflexivity.
  - left. reflexivity.
Qed.

Lemma r2_zero_variance_unguarded_witness :
  exists m,
    evaluate_model toy_forward (fun x => x) tf_reduce_sum tf_reduce_mean
      0%nat [flat_batch] true = Ok m /\
    (e_r2 m = XNaN \/ e_r2 m = XNInf).
Proof.
  apply (r2_zero_variance_unguarded toy_forward (fun x => x)
           tf_reduce_sum tf_reduce_mean 0%nat [flat_batch] true 1).
  - exact tf_reduce_sum_zeros.
  - exact tf_reduce_sum_nonneg.
  - reflexivity.
  - repeat constructor; reflexivity.
  - vm_compute. reflexivity.
Defined.

(** C5 as stated fails: with four true values equal to one, whose mean
    is one in float32, the evaluation succeeds and R2 is what the
    division by zero gives, minus infinity for imperfect predictions and
    NaN for perfect ones. *)
Lemma r2_zero_variance_not_signalled :
  (exists m,
     evaluate_model toy_forward (fun x => x) tf_reduce_sum tf_reduce_mean
       1%nat [flat_batch] false = Ok m /\
     e_trues m = map XFin [1; 1; 1; 1] /\
     e_preds m = map XFin [4; 2; 0; 0] /\ e_r2 m = XNInf) /\
  (exists m,
     evaluate_model (fun (_ : nat) (_ : unit) => map XFin [1; 1; 1; 1])
       (fun x => x) tf_reduce_sum tf_reduce_mean
       1%nat [flat_batch] false = Ok m /\
     e_trues m = e_preds m /\ e_r2 m = XNaN).
Proof.
  split.
  - eexists. split; [vm_compute; reflexivity|].
    split; [reflexivity|]. split; reflexivity.
  - eexists. split; [vm_compute; reflexivity|]. split; reflexivity.
Qed.

(** * Further properties of the pipeline *)

(** ** Resampling *)

(** X1.  Resampling does not extrapolate, in exact arithmetic: when
    every sample of a non-empty sequence lies between [lo] and [hi], and
    [hi - lo] does not exceed the largest float64, so that the
    difference of two samples does not overflow, every resampled value
    lies between [lo] and [hi] too, for every target length. *)
Theorem anchor_resample_within_range (x : list Q) (L : nat) (lo hi : Q) :
  x <> [] ->
  hi - lo <= DBL_MAX ->
  Forall (fun v => lo <= v /\ v <= hi) x ->
  Forall (fun v => lo <= v /\ v <= hi) (anchor_resample x L).
Proof. intros Hx _. apply anchor_resample_bounds, Hx. Qed.

Lemma anchor_resample_within_range_witness :
  Forall (fun v => 3 <= v /\ v <= 4) (anchor_resample [4; 3; 7 # 2] 7).
Proof.
  apply anchor_resample_within_range; [discriminate | |].
  - apply Qle_bool_iff. vm_compute. reflexivity.
  - repeat constructor; lra.
Defined.

(** At a knot the search returns the ordinate of that knot. *)
Lemma interp_search_knot (xp : list Q) :
  forall (fp : list Q) (j i : nat) (k f : Q),
    knots_at xp j -> length xp = length fp ->
    xp !! i = Some k -> fp !! i = Some f ->
    interp_search k xp fp = f.
Proof.
  induction xp as [|x0 xp IH]; intros fp j i k f Hk Hlen Hx Hf;
    [discriminate|].
  destruct fp as [|f0 fp]; [discriminate|].
  pose proof (Hk i k Hx) as Hki.
  destruct xp as [|x1 xp]; destruct fp as [|f1 fp]; try discriminate.
  - destruct i; [|discriminate]. injection Hf as <-. reflexivity.
  - rewrite interp_search_step.
    pose proof (knots_at_head _ _ _ Hk) as H0.
    pose proof (knots_at_tail _ _ _ Hk) as Hk'.
    pose proof (knots_at_head _ _ _ Hk') as H1.
    rewrite Qnat_S in H1.
    destruct i as [|i].
    + injection Hx as <-. injection Hf as <-.
      assert (Qltb x0 x1 = true) as -> by (apply Qltb_lt; lra).
      assert (Qeq_bool x0 x0 = true) as -> by (apply Qeq_bool_iff; reflexivity).
      reflexivity.
    + assert (Qnat (S j) <= k) as Hle.
      { rewrite Hki. apply Qnat_le. lia. }
      rewrite Qnat_S in Hle.
      assert (Qltb k x1 = false) as -> by (apply Qltb_ge; lra).
      apply (IH (f1 :: fp) (S j) i); try assumption.
      simpl in *. lia.
Qed.

(** X2.  Resampling a sequence to its own length returns the sequence. *)
Theorem anchor_resample_same_length (x : list Q) :
  anchor_resample x (length x) = x.
Proof.
  destruct x as [|x0 [|x1 x]]; [reflexivity | reflexivity |].
  cbn [anchor_resample]. unfold np_interp.
  set (fp := x0 :: x1 :: x). set (n := length fp).
  assert (2 <= n)%nat as Hn by (subst n fp; simpl; lia).
  pose proof (original_indices_knots n Hn) as Hk.
  pose proof (np_linspace_length 0 (Qnat (n - 1)) n) as Hlen.
  set (xp := np_linspace 0 (Qnat (n - 1)) n) in *.
  apply list_eq. intros i.
  change (map ?g ?l) with (g <$> l). rewrite list_lookup_fmap.
  destruct (xp !! i) as [k|] eqn:Ek; cbn [fmap option_fmap option_map].
  - assert (i < length fp)%nat as Hi.
    { apply lookup_lt_Some in Ek. fold n. lia. }
    destruct (lookup_lt_is_Some_2 fp i Hi) as [f Ef]. rewrite Ef. f_equal.
    unfold np_interp1.
    destruct xp as [|k0 xp'] eqn:Exp; [discriminate|]. subst fp.
    pose proof (knots_at_head _ _ _ Hk) as H0.
    assert (Qltb k k0 = false) as ->.
    { apply Qltb_ge. rewrite H0, (Hk i k Ek). apply Qnat_le. lia. }
    apply (interp_search_knot _ _ 0 i k f Hk); [|exact Ek | exact Ef].
    exact Hlen.
  - apply lookup_ge_None in Ek. symmetry. apply lookup_ge_None. fold n. lia.
Qed.

(** ** Coulomb counting *)

Lemma simple_ecm_values_from_agree (current : list Q) (delta_t capacity : Q) :
  ~ capacity * 3600 == 0 ->
  forall s,
    simple_ecm_from (XFin s) (map XFin current) delta_t capacity
    = map XFin (simple_ecm_values_from s current delta_t capacity).
Proof.
  intros Hc. induction current as [|c rest IH]; intros s; [reflexivity|].
  cbn [simple_ecm_from simple_ecm_values_from map xmul]. unfold xdiv.
  destruct (Qeq_bool (capacity * 3600) 0) eqn:E;
    [apply Qeq_bool_iff in E; contradiction|].
  cbn [xsub xopp xadd xclip]. f_equal. apply IH.
Qed.

Lemma simple_ecm_values_agree (current : list Q) (delta_t capacity : Q) :
  ~ capacity == 0 ->
  simple_ecm (map XFin current) delta_t capacity
  = map XFin (simple_ecm_values current delta_t capacity).
Proof.
  intros Hc. apply simple_ecm_values_from_agree. lra.
Qed.

Lemma simple_ecm_from_take (current : list xval) (delta_t capacity : Q) :
  forall (k : nat) (soc : xval),
    take k (simple_ecm_from soc current delta_t capacity)
    = simple_ecm_from soc (take k current) delta_t capacity.
Proof.
  induction current as [|c rest IH]; intros k soc.
  - destruct k; reflexivity.
  - destruct k; [reflexivity|].
    cbn [simple_ecm_from take]. f_equal. apply IH.
Qed.

(** X3.  The estimate at a sample depends on the samples up to it only:
    the first [k] values for a trace are the values for its first [k]
    samples. *)
Theorem simple_ecm_prefix (current : list xval) (delta_t capacity : Q)
    (k : nat) :
  take k (simple_ecm current delta_t capacity)
  = simple_ecm (take k current) delta_t capacity.
Proof. apply simple_ecm_from_take. Qed.

Lemma clip_unit (q : Q) :
  0 <= (if Qltb q 0 then 0 else if Qltb 1 q then 1 else q) /\
  (if Qltb q 0 then 0 else if Qltb 1 q then 1 else q) <= 1.
Proof.
  destruct (Qltb q 0) eqn:E0; [lra|]. apply Qltb_ge in E0.
  destruct (Qltb 1 q) eqn:E1; [lra|]. apply Qltb_ge in E1. lra.
Qed.


Lemma step_nonneg (c delta_t capacity : Q) :
  0 <= c -> 0 <= delta_t -> 0 < capacity ->
  0 <= c * delta_t / (capacity * 3600).
Proof.
  intros Hc Hd Hcap. apply Qle_shift_div_l; [lra|].
  assert (0 <= c * delta_t) by (apply Qmult_le_0_compat; assumption). lra.
Qed.




Lemma Qsum_nonneg (l : list Q) : Forall (fun c => 0 <= c) l -> 0 <= Qsum l.
Proof.
  induction 1 as [|c l Hc _ IH]; cbn [Qsum]; lra.
Qed.

Lemma simple_ecm_values_from_exact (current : list Q) (delta_t capacity : Q) :
  0 <= delta_t -> 0 < capacity -> Forall (fun c => 0 <= c) current ->
  forall (s : Q) (k : nat) (a : Q),
    s <= 1 ->
    Qsum current * delta_t / (capacity * 3600) <= s ->
    simple_ecm_values_from s current delta_t capacity !! k = Some a ->
    a == s - Qsum (take (S k) current) * delta_t / (capacity * 3600).
Proof.
  intros Hd Hcap Hcur. induction Hcur as [|c rest Hc Hrest IH];
    intros s k a H1 Hsum Ha; [discriminate|].
  cbn [simple_ecm_values_from] in Ha.
  set (D := capacity * 3600) in *.
  assert (0 < D) as HD by (subst D; lra).
  set (d := c * delta_t / D) in *.
  assert (0 <= d) as Hdn by (apply step_nonneg; assumption).
  assert (0 <= Qsum rest * delta_t / D) as Hrn.
  { apply Qle_shift_div_l; [lra|].
    assert (0 <= Qsum rest * delta_t)
      by (apply Qmult_le_0_compat; [apply Qsum_nonneg|]; assumption).
    lra. }
  assert (Qsum (c :: rest) * delta_t / D == d + Qsum rest * delta_t / D) as Hsplit.
  { cbn [Qsum]. subst d. field. lra. }
  rewrite Hsplit in Hsum.
  assert (Qltb (s - d) 0 = false) as E0 by (apply Qltb_ge; lra).
  assert (Qltb 1 (s - d) = false) as E1 by (apply Qltb_ge; lra).
  rewrite E0, E1 in Ha.
  destruct k as [|k].
  - injection Ha as <-. change (take 1 (c :: rest)) with [c].
    cbn [Qsum]. subst d. field. lra.
  - cbn [lookup list_lookup] in Ha.
    rewrite (IH (s - d) k a); [| lra | lra | exact Ha].
    change (take (S (S k)) (c :: rest)) with (c :: take (S k) rest).
    cbn [Qsum]. subst d. field. lra.
Qed.

(** X5.  As long as the charge drawn stays within the capacity nothing
    is clipped and the estimate is the coulomb count itself: with
    currents that are not negative, [k+1] samples in, the value is
    [1 - (current[0] + ... + current[k]) * delta_t / (capacity * 3600)]. *)
Theorem simple_ecm_exact_count (current : list Q) (delta_t capacity : Q)
    (k : nat) (v : xval) :
  0 <= delta_t -> 0 < capacity -> Forall (fun c => 0 <= c) current ->
  Qsum current * delta_t <= capacity * 3600 ->
  simple_ecm (map XFin current) delta_t capacity !! k = Some v ->
  xeq v (XFin (1 - Qsum (take (S k) current) * delta_t / (capacity * 3600))).
Proof.
  intros Hd Hcap Hcur Hsum Hv.
  rewrite simple_ecm_values_agree in Hv by lra.
  change (map XFin ?l) with (XFin <$> l) in Hv.
  rewrite list_lookup_fmap in Hv.
  destruct (simple_ecm_values current delta_t capacity !! k) as [a|] eqn:Ea;
    [|discriminate].
  injection Hv as <-. cbn [xeq].
  apply (simple_ecm_values_from_exact current delta_t capacity Hd Hcap Hcur
           1 k a); [lra | | exact Ea].
  apply Qle_shift_div_r; lra.
Qed.

Lemma simple_ecm_exact_count_witness :
  exists v,
    simple_ecm (map XFin [1; 1; 1; 1]) 900 2 !! 3%nat = Some v /\
    xeq v (XFin (1 - Qsum (take 4 [1; 1; 1; 1]) * 900 / (2 * 3600))).
Proof.
  eexists. split; [vm_compute; reflexivity|].
  apply (simple_ecm_exact_count [1; 1; 1; 1] 900 2 3); try lra.
  - repeat constructor; lra.
  - vm_compute. discriminate.
  - vm_compute. reflexivity.
Defined.

(** ** Losses *)

Lemma Qnat_length_pos {A : Type} (l : list A) : l <> [] -> 0 < Qnat (length l).
Proof.
  intros Hl. apply Qnat_pos. destruct l; [congruence | simpl; lia].
Qed.

Lemma xadd_finite (a b : xval) (q : Q) :
  xadd a b = XFin q -> exists x y, a = XFin x /\ b = XFin y /\ q = x + y.
Proof.
  destruct a as [x| | |], b as [y| | |]; try discriminate.
  intros [= <-]. exists x, y. auto.
Qed.

Lemma fadd_finite (a b : xval) (q : Q) :
  fadd a b = XFin q -> exists x y, a = XFin x /\ b = XFin y /\ q = x + y.
Proof.
  intros H. apply f32_finite in H as [H _]. apply xadd_finite, H.
Qed.

Lemma fmul_finite_l (k : Q) (a : xval) (q : Q) :
  fmul (XFin k) a = XFin q -> exists x, a = XFin x /\ q = k * x.
Proof.
  intros H. apply f32_finite in H as [H _].
  destruct a as [x| | |]; cbn [xmul] in H.
  - injection H as <-. exists x. auto.
  - unfold xinf_signed in H.
    destruct (Qeq_bool k 0); [discriminate|].
    destruct (Bool.eqb (Qltb 0 k) true); discriminate.
  - unfold xinf_signed in H.
    destruct (Qeq_bool k 0); [discriminate|].
    destruct (Bool.eqb (Qltb 0 k) false); discriminate.
  - discriminate.
Qed.

Lemma boundary_elems_nonneg (y_pred : list xval) :
  Forall xnonneg
    (map (fun p => fadd (tf_relu (fsub p (XFin 1))) (tf_relu (fsub (XFin 0) p)))
       y_pred).
Proof.
  apply Forall_forall. intros v Hv.
  apply list_elem_of_In, in_map_iff in Hv as (p & <- & _).
  apply fadd_nonneg; apply tf_relu_nonneg.
Qed.

(** X6.  Whenever the physics-informed loss of a batch, with weights
    that are not negative, is a finite number, so is its mean squared
    error, which is not negative and not above the loss. *)
Theorem physics_informed_loss_above_mse (y_true y_pred ecm_soc : list xval)
    (alpha beta p : Q) :
  0 <= alpha -> 0 <= beta ->
  physics_informed_loss y_true y_pred ecm_soc alpha beta = XFin p ->
  exists m, mse_loss y_true y_pred = XFin m /\ 0 <= m /\ m <= p.
Proof.
  intros Ha Hb Hp. rewrite physics_informed_loss_terms in Hp.
  apply fadd_finite in Hp as (s & b' & Hs & Hb' & ->).
  apply fadd_finite in Hs as (m0 & a' & Hm0 & Ha' & ->).
  apply fmul_finite_l in Ha' as (c & Hc & ->).
  apply fmul_finite_l in Hb' as (b & Hbd & ->).
  assert (0 <= m0) as Hm0n.
  { pose proof (tf_reduce_mean_nonneg
                  (zip_with (fun p t => f_square (fsub p t)) y_pred y_true)
                  (Forall_zip_with_nonneg _ _ _
                     (fun x y => tf_square_nonneg (fsub x y)))) as H.
    rewrite Hm0 in H. exact H. }
  assert (0 <= c) as Hcn.
  { pose proof (tf_reduce_mean_nonneg
                  (zip_with (fun p e => f_square (fsub p e)) y_pred ecm_soc)
                  (Forall_zip_with_nonneg _ _ _
                     (fun x y => tf_square_nonneg (fsub x y)))) as H.
    fold (coulomb_term y_pred ecm_soc) in H. rewrite Hc in H. exact H. }
  assert (0 <= b) as Hbn.
  { pose proof (tf_reduce_mean_nonneg _ (boundary_elems_nonneg y_pred)) as H.
    fold (boundary_term y_pred) in H. rewrite Hbd in H. exact H. }
  pose proof (mse_loss_swap y_true y_pred) as Hsw. rewrite Hm0 in Hsw.
  destruct (mse_loss y_true y_pred) as [m| | |]; simpl in Hsw;
    try contradiction.
  exists m. split; [reflexivity|].
  assert (0 <= alpha * c) by (apply Qmult_le_0_compat; assumption).
  assert (0 <= beta * b) by (apply Qmult_le_0_compat; assumption).
  lra.
Qed.

Lemma physics_informed_loss_above_mse_witness :
  exists p m,
    physics_informed_loss (map XFin [1; 0]) (map XFin [1 # 2; 3 # 2])
      (map XFin [1; 1 # 2]) (1 # 10) (1 # 10) = XFin p /\
    mse_loss (map XFin [1; 0]) (map XFin [1 # 2; 3 # 2]) = XFin m /\
    0 <= m /\ m <= p.
Proof.
  assert (exists p,
            physics_informed_loss (map XFin [1; 0]) (map XFin [1 # 2; 3 # 2])
              (map XFin [1; 1 # 2]) (1 # 10) (1 # 10) = XFin p) as [p Hp]
    by (eexists; vm_compute; reflexivity).
  destruct (physics_informed_loss_above_mse _ _ _ (1 # 10) (1 # 10) p
              ltac:(lra) ltac:(lra) Hp) as (m & Hm & Hmp).
  exists p, m. split; [exact Hp|]. split; [exact Hm | exact Hmp].
Defined.

Lemma tf_reduce_mean_zeros (l : list xval) :
  l <> [] -> Forall (fun x => xeq x (XFin 0)) l ->
  xeq (tf_reduce_mean l) (XFin 0).
Proof.
  intros Hne Hz. unfold tf_reduce_mean.
  rewrite (tf_reduce_sum_zeros l Hz). unfold fdiv. cbn [xdiv].
  pose proof (Qnat_length_pos l Hne) as Hn.
  rewrite (Qeq_bool_pos _ Hn). rewrite f32_zero by (field; lra).
  simpl. field. lra.
Qed.

Lemma boundary_elem_zero (p : xval) :
  in_unit p ->
  xeq (fadd (tf_relu (fsub p (XFin 1))) (tf_relu (fsub (XFin 0) p))) (XFin 0).
Proof.
  destruct p as [q| | |]; simpl; try contradiction. intros [H0 H1].
  pose proof FLT_OVERFLOW_pos as Hpos.
  assert (1 < FLT_OVERFLOW) as Hbig by (apply Qltb_lt; vm_compute; reflexivity).
  unfold fsub. cbn [xsub xopp xadd].
  rewrite !f32_in_range by lra. cbn [tf_relu].
  repeat match goal with
         | |- context [Qltb 0 ?x] =>
             let E := fresh "E" in
             destruct (Qltb 0 x) eqn:E; [apply Qltb_lt in E; lra|]
         end.
  unfold fadd. cbn [xadd]. rewrite f32_zero by ring. simpl. ring.
Qed.

Lemma boundary_term_unit (y_pred : list xval) :
  Forall in_unit y_pred ->
  boundary_term y_pred = XNaN \/ xeq (boundary_term y_pred) (XFin 0).
Proof.
  intros Hu. destruct y_pred as [|p0 rest]; [left; reflexivity|].
  right. unfold boundary_term. apply tf_reduce_mean_zeros; [discriminate|].
  apply Forall_forall. intros v Hv.
  apply list_elem_of_In, in_map_iff in Hv as (p & <- & Hp).
  apply boundary_elem_zero. rewrite Forall_forall in Hu.
  apply Hu, list_elem_of_In, Hp.
Qed.

Lemma xadd_nan_r (a : xval) : xadd a XNaN = XNaN.
Proof. destruct a; reflexivity. Qed.

(** X7.  When every prediction of a batch lies in [[0,1]] the boundary
    term is zero: the physics-informed loss is the same for every
    [beta]. *)
Theorem physics_informed_loss_boundary_free (y_true y_pred ecm_soc : list xval)
    (alpha beta : Q) :
  Forall in_unit y_pred ->
  xeq (physics_informed_loss y_true y_pred ecm_soc alpha beta)
      (physics_informed_loss y_true y_pred ecm_soc alpha 0).
Proof.
  intros Hu. rewrite !physics_informed_loss_terms.
  destruct (boundary_term_unit y_pred Hu) as [-> | Hz].
  - unfold fmul at 1 3. cbn [xmul f32]. unfold fadd at 1 3.
    rewrite !xadd_nan_r. reflexivity.
  - rewrite Hz. apply fadd_proper; [reflexivity|].
    unfold fmul. cbn [xmul]. rewrite !f32_zero by ring. simpl. ring.
Qed.

Lemma physics_informed_loss_boundary_free_witness :
  xeq (physics_informed_loss (map XFin [1; 0]) (map XFin [1 # 2; 1])
         (map XFin [1; 1 # 2]) (1 # 10) 5)
      (physics_informed_loss (map XFin [1; 0]) (map XFin [1 # 2; 1])
         (map XFin [1; 1 # 2]) (1 # 10) 0).
Proof.
  apply physics_informed_loss_boundary_free.
  repeat constructor; cbn; lra.
Defined.

Lemma zip_with_diag {A B : Type} (f : A -> A -> B) (l : list A) :
  zip_with f l l = map (fun x => f x x) l.
Proof. induction l as [|x l IH]; cbn; [reflexivity | f_equal; exact IH]. Qed.

(** X8.  The mean squared error is never negative: it is a number that
    is not negative, plus infinity or NaN.  On a non-empty batch of
    finite values whose prediction is the target itself it is zero. *)
Theorem mse_loss_not_negative (y_true y_pred : list xval) :
  xnonneg (mse_loss y_true y_pred) /\
  (y_true <> [] -> Forall (fun t => xfinite t = true) y_true ->
   xeq (mse_loss y_true y_true) (XFin 0)).
Proof.
  split.
  - unfold mse_loss. apply tf_reduce_mean_nonneg, Forall_zip_with_nonneg.
    intros x y. apply tf_square_nonneg.
  - intros Hne Hfin. unfold mse_loss. rewrite zip_with_diag.
    apply tf_reduce_mean_zeros.
    + destruct y_true; [congruence | discriminate].
    + apply Forall_forall. intros v Hv.
      apply list_elem_of_In, in_map_iff in Hv as (t & <- & Ht).
      rewrite Forall_forall in Hfin. apply list_elem_of_In in Ht.
      specialize (Hfin t Ht). destruct t as [c| | |]; try discriminate.
      apply (tf_square_fsub_same _ _ c); reflexivity.
Qed.

Lemma mse_loss_not_negative_witness :
  xnonneg (mse_loss (map XFin [1 # 2; 3 # 4]) (map XFin [1; 0])) /\
  xeq (mse_loss (map XFin [1 # 2; 3 # 4]) (map XFin [1 # 2; 3 # 4])) (XFin 0).
Proof.
  destruct (mse_loss_not_negative (map XFin [1 # 2; 3 # 4]) (map XFin [1; 0]))
    as [Hn Hz].
  split; [exact Hn|]. apply Hz; [discriminate | repeat constructor].
Defined.

(** ** The checkpoint files of a run *)

Section Checkpoints.

Context {W Opt F : Type}.
Variable forward : W -> F -> list xval.
Variable adam : Q -> Opt.
Variable apply_gradients : Opt -> W -> (W -> result xval) -> Opt * W.
Variables model_name loss_type : string.
Variable ecm_in : bool.
Variables alpha beta : Q.
Variables train_ds val_ds : list (batch F).

Local Abbreviation epoch :=
  (train_epoch forward apply_gradients model_name loss_type ecm_in alpha beta
     train_ds val_ds).
Local Abbreviation run :=
  (train_epochs forward apply_gradients model_name loss_type ecm_in alpha beta
     train_ds val_ds).
Local Abbreviation key := (checkpoint_key loss_type model_name).

Lemma run_files_other (n : nat) (other : string) :
  other <> key ->
  forall a b : train_state W Opt, run n a = Ok b ->
    ts_files b !! other = ts_files a !! other.
Proof.
  intros Hne. induction n as [|n IH]; intros a b H.
  - injection H as <-. reflexivity.
  - cbn [train_epochs] in H. unfold mbind, result_bind, rbind in H.
    destruct (epoch a) as [a'|e] eqn:E; [|discriminate].
    apply train_epoch_inv in E as (v & t & _ & _ & _ & Hfiles).
    rewrite (IH _ _ H), Hfiles.
    destruct (xltb v (ts_best_val_loss a)); [|reflexivity].
    apply lookup_insert_ne. congruence.
Qed.

(** X9.  A run that returns has written to no file but its own
    checkpoint: every other file is as it was before the run. *)
Theorem train_model_other_files (files : gmap string W) (w : W) (lr : Q)
    (epochs : nat) (final : train_state W Opt) (other : string) :
  train_model forward adam apply_gradients files w model_name train_ds val_ds
    loss_type ecm_in alpha beta epochs lr = Ok final ->
  other <> checkpoint_key loss_type model_name ->
  ts_files final !! other = files !! other.
Proof.
  unfold train_model. unfold_bind. intros H Hne.
  destruct (run epochs (train_init adam files w lr)) as [st|e] eqn:Hst;
    [|discriminate].
  destruct (ts_files st !! key); [|discriminate].
  injection H as <-. cbn [ts_files].
  apply (run_files_other epochs other Hne _ _ Hst).
Qed.

(** What the checkpoint holds after [n] epochs: what it held before the
    run, or the weights at the end of one of the epochs. *)
Lemma run_checkpoint_origin (files : gmap string W) (w : W) (lr : Q) (n : nat) :
  forall st, run n (train_init adam files w lr) = Ok st ->
    ts_files st !! key = files !! key \/
    exists k stk, (k < n)%nat /\
      run (S k) (train_init adam files w lr) = Ok stk /\
      ts_files st !! key = Some (ts_weights stk).
Proof.
  induction n as [|n IH]; intros st H.
  - injection H as <-. left. reflexivity.
  - pose proof H as H'.
    replace (S n) with (n + 1)%nat in H by lia.
    rewrite train_epochs_add in H.
    destruct (run n (train_init adam files w lr)) as [a|e] eqn:Ha;
      [|discriminate].
    cbn [rbind] in H. apply train_epochs_one in H.
    apply train_epoch_inv in H as (v & t & _ & _ & _ & Hfiles).
    rewrite Hfiles. destruct (xltb v (ts_best_val_loss a)).
    + right. exists n, st. split; [lia|]. split; [exact H'|].
      apply lookup_insert_eq.
    + destruct (IH a eq_refl) as [Hsame | (k & stk & Hk & Hrun & Hl)].
      * left. exact Hsame.
      * right. exists k, stk. split; [lia|]. split; assumption.
Qed.

(** X10.  When no checkpoint file of that name exists before the run,
    the weights a returning run restores are those the model had at the
    end of one of its own epochs. *)
Theorem train_model_restores_own_epoch (files : gmap string W) (w : W) (lr : Q)
    (epochs : nat) (final : train_state W Opt) :
  files !! checkpoint_key loss_type model_name = None ->
  train_model forward adam apply_gradients files w model_name train_ds val_ds
    loss_type ecm_in alpha beta epochs lr = Ok final ->
  exists k stk, (k < epochs)%nat /\
    run (S k) (train_init adam files w lr) = Ok stk /\
    ts_weights final = ts_weights stk.
Proof.
  unfold train_model. unfold_bind. intros Hnone H.
  destruct (run epochs (train_init adam files w lr)) as [st|e] eqn:Hst;
    [|discriminate].
  destruct (ts_files st !! key) as [best|] eqn:Hbest; [|discriminate].
  injection H as <-. cbn [ts_weights].
  destruct (run_checkpoint_origin files w lr epochs st Hst)
    as [Hsame | (k & stk & Hk & Hrun & Hl)].
  - rewrite Hbest, Hnone in Hsame. discriminate.
  - exists k, stk. split; [exact Hk|]. split; [exact Hrun|]. congruence.
Qed.

End Checkpoints.

Lemma train_model_other_files_witness :
  exists final,
    toy_train_model {[ "notes.txt" := 9%nat ]} "dense" [toy_batch] [toy_batch]
      "mse" false 2 = Ok final /\
    ts_files final !! "notes.txt" = Some 9%nat.
Proof.
  assert (exists final,
    toy_train_model {[ "notes.txt" := 9%nat ]} "dense" [toy_batch] [toy_batch]
      "mse" false 2 = Ok final) as [final Hfinal]
    by (eexists; vm_compute; reflexivity).
  exists final. split; [exact Hfinal|].
  unfold toy_train_model in Hfinal.
  rewrite (train_model_other_files _ _ _ _ _ _ _ _ _ _ _ _ _ _ _ "notes.txt"
             Hfinal).
  - vm_compute. reflexivity.
  - vm_compute. discriminate.
Defined.

Lemma train_model_restores_own_epoch_witness :
  exists final k stk,
    toy_train_model ∅ "dense" [toy_batch] [toy_batch] "mse" false 5 = Ok final /\
    (k < 5)%nat /\
    train_epochs toy_forward toy_apply_gradients "dense" "mse" false
      (1 # 10) (1 # 10) [toy_batch] [toy_batch] (S k)
      (train_init toy_adam ∅ 0%nat (1 # 1000)) = Ok stk /\
    ts_weights final = ts_weights stk.
Proof.
  assert (exists final,
    toy_train_model ∅ "dense" [toy_batch] [toy_batch] "mse" false 5 = Ok final)
    as [final Hfinal] by (eexists; vm_compute; reflexivity).
  pose proof Hfinal as Hrun. unfold toy_train_model in Hrun.
  destruct (train_model_restores_own_epoch _ _ _ _ _ _ _ _ _ _ _ _ _ _ _
              (lookup_empty _) Hrun) as (k & stk & Hk & Hstk & Hw).
  exists final, k, stk. auto.
Defined.

(** Without validation batches the mean validation loss is NaN and the
    epoch writes nothing. *)
Lemma train_epochs_empty_validation {W Opt F : Type}
    (forward : W -> F -> list xval)
    (apply_gradients : Opt -> W -> (W -> result xval) -> Opt * W)
    (model_name loss_type : string) (ecm_in : bool) (alpha beta : Q)
    (train_ds : list (batch F)) (n : nat) :
  forall a b : train_state W Opt,
    train_epochs forward apply_gradients model_name loss_type ecm_in alpha beta
      train_ds [] n a = Ok b ->
    ts_files b = ts_files a.
Proof.
  induction n as [|n IH]; intros a b H.
  - injection H as <-. reflexivity.
  - cbn [train_epochs] in H. unfold train_epoch in H.
    unfold mbind, result_bind, rbind in H.
    destruct (train_batches _ _ _ _ _ _ _ _ _ _) as [[[o w] tl]|e];
      [|discriminate].
    cbn [val_batches] in H.
    apply IH in H. rewrite H. reflexivity.
Qed.

(** X11.  With an empty validation set no epoch writes a checkpoint:
    the run ends in [FileNotFoundError], unless a file of that name was
    there before, and then it is that file the run restores. *)
Theorem train_model_empty_validation {W Opt F : Type}
    (forward : W -> F -> list xval) (adam : Q -> Opt)
    (apply_gradients : Opt -> W -> (W -> result xval) -> Opt * W)
    (files : gmap string W) (w : W) (model_name : string)
    (train_ds : list (batch F)) (loss_type : string) (ecm_in : bool)
    (alpha beta : Q) (epochs : nat) (lr : Q) :
  valid_loss_type loss_type ->
  (files !! checkpoint_key loss_type model_name = None ->
   train_model forward adam apply_gradients files w model_name train_ds []
     loss_type ecm_in alpha beta epochs lr = Err FileNotFoundError) /\
  (forall stale, files !! checkpoint_key loss_type model_name = Some stale ->
   exists final,
     train_model forward adam apply_gradients files w model_name train_ds []
       loss_type ecm_in alpha beta epochs lr = Ok final /\
     ts_weights final = stale /\ ts_files final = files).
Proof.
  intros Hv.
  destruct (run_valid forward apply_gradients model_name loss_type ecm_in
              alpha beta train_ds [] epochs Hv (train_init adam files w lr))
    as [st Hst].
  pose proof (train_epochs_empty_validation _ _ _ _ _ _ _ _ _ _ _ Hst) as Hf.
  cbn [train_init ts_files] in Hf.
  unfold train_model. rewrite Hst. unfold_bind. rewrite Hf. split.
  - intros ->. reflexivity.
  - intros stale ->. eexists. split; [reflexivity|]. cbn. auto.
Qed.

Lemma train_model_empty_validation_witness :
  valid_loss_type "mse" /\
  exists final,
    toy_train_model {[ checkpoint_key "mse" "dense" := 7%nat ]} "dense"
      [toy_batch] [] "mse" false 3 = Ok final /\
    ts_weights final = 7%nat.
Proof.
  assert (valid_loss_type "mse") as Hv by (left; reflexivity).
  split; [exact Hv|]. unfold toy_train_model.
  destruct (train_model_empty_validation toy_forward toy_adam
              toy_apply_gradients {[ checkpoint_key "mse" "dense" := 7%nat ]}
              0%nat "dense" [toy_batch] "mse" false (1 # 10) (1 # 10) 3
              (1 # 1000) Hv) as [_ Hstale].
  destruct (Hstale 7%nat) as (final & Hfinal & Hw & _).
  - apply lookup_singleton_eq.
  - exists final. split; assumption.
Defined.

(** ** Evaluation *)

Lemma squeezed_shape_one {F : Type} (b : batch F) :
  b_cycles b = 1%nat -> (2 <= b_points b)%nat ->
  squeezed_shape b = [b_points b].
Proof.
  intros Hc Hp. unfold squeezed_shape. cbn [List.filter]. rewrite Hc.
  destruct (Nat.eqb_spec (b_points b) 1); [lia | reflexivity].
Qed.

Lemma squeezed_shape_many {F : Type} (b : batch F) :
  (2 <= b_cycles b)%nat -> (2 <= b_points b)%nat ->
  squeezed_shape b = [b_cycles b; b_points b].
Proof.
  intros Hc Hp. unfold squeezed_shape. cbn [List.filter].
  destruct (Nat.eqb_spec (b_cycles b) 1); [lia|].
  destruct (Nat.eqb_spec (b_points b) 1); [lia | reflexivity].
Qed.

Lemma concatenable_spec (s : list nat) (shapes : list (list nat)) :
  concatenable (s :: shapes) = true <->
  s <> [] /\
  Forall (fun s' => length s' = length s /\ tail s' = tail s) shapes.
Proof.
  unfold concatenable. rewrite forallb_forall. split.
  - intros H. split.
    + specialize (H s (or_introl eq_refl)).
      destruct s; [discriminate | discriminate].
    + apply Forall_forall. intros s' Hin. apply list_elem_of_In in Hin.
      specialize (H s' (or_intror Hin)).
      apply andb_prop in H as [H Ht]. apply andb_prop in H as [_ Hl].
      apply Nat.eqb_eq in Hl. apply bool_decide_eq_true in Ht. auto.
  - intros [Hs Hall] s' [<- | Hin].
    + rewrite Nat.eqb_refl, bool_decide_true by reflexivity.
      destruct s; [congruence | reflexivity].
    + rewrite Forall_forall in Hall. apply list_elem_of_In in Hin.
      destruct (Hall s' Hin) as [Hl Ht].
      rewrite Hl, Nat.eqb_refl, Ht, bool_decide_true by reflexivity.
      destruct s; [congruence | reflexivity].
Qed.

(** X12.  With two points or more per cycle, [evaluate_model] returns
    exactly when the validation set is not empty and its batches all
    hold one cycle or all hold two cycles or more; its predictions and
    true values are then those of the batches in order.  On an empty
    validation set, and when a batch of one cycle comes with a batch of
    several ([np.squeeze] drops the batch axis of the former), the
    concatenation raises [ValueError]. *)
Theorem evaluate_model_batch_shapes {W F : Type} (forward : W -> F -> list xval)
    (np_sqrt : xval -> xval) (np_sum32 np_mean32 : list xval -> xval)
    (w : W) (val_ds : list (batch F)) (ecm_in : bool) (L : nat) :
  (2 <= L)%nat ->
  Forall (fun b => (1 <= b_cycles b)%nat /\ b_points b = L) val_ds ->
  (val_ds <> [] /\
   (Forall (fun b => b_cycles b = 1%nat) val_ds \/
    Forall (fun b => (2 <= b_cycles b)%nat) val_ds) ->
   exists m,
     evaluate_model forward np_sqrt np_sum32 np_mean32 w val_ds ecm_in = Ok m /\
     e_preds m = concat (map (batch_pred_soc forward ecm_in w) val_ds) /\
     e_trues m = concat (map b_true_soc val_ds)) /\
  (val_ds = [] \/
   (Exists (fun b => b_cycles b = 1%nat) val_ds /\
    Exists (fun b => (2 <= b_cycles b)%nat) val_ds) ->
   evaluate_model forward np_sqrt np_sum32 np_mean32 w val_ds ecm_in
   = Err ValueError).
Proof.
  intros HL Hwf.
  assert (forall b, b ∈ val_ds -> b_cycles b = 1%nat ->
            squeezed_shape b = [L]) as Hone1.
  { intros b Hb Hc. rewrite Forall_forall in Hwf.
    destruct (Hwf b Hb) as [_ Hp]. rewrite <- Hp.
    apply squeezed_shape_one; [exact Hc | lia]. }
  assert (forall b, b ∈ val_ds -> (2 <= b_cycles b)%nat ->
            squeezed_shape b = [b_cycles b; L]) as Hmany1.
  { intros b Hb Hc. rewrite Forall_forall in Hwf.
    destruct (Hwf b Hb) as [_ Hp]. rewrite <- Hp.
    apply squeezed_shape_many; [exact Hc | lia]. }
  split.
  - intros [Hne Hkind]. unfold evaluate_model.
    assert (concatenable (map squeezed_shape val_ds) = true) as ->;
      [|eexists; split; [reflexivity|]; split; reflexivity].
    destruct val_ds as [|b0 ds]; [congruence|]. cbn [map].
    apply concatenable_spec. destruct Hkind as [Hone | Hmany].
    + rewrite Forall_forall in Hone.
      rewrite (Hone1 b0) by (apply list_elem_of_here || apply Hone, list_elem_of_here).
      split; [discriminate|].
      apply Forall_forall. intros s Hs.
      apply list_elem_of_In, in_map_iff in Hs as (b & <- & Hb).
      apply list_elem_of_In in Hb.
      rewrite (Hone1 b) by
        (apply list_elem_of_further, Hb || apply Hone, list_elem_of_further, Hb).
      auto.
    + rewrite Forall_forall in Hmany.
      rewrite (Hmany1 b0) by (apply list_elem_of_here || apply Hmany, list_elem_of_here).
      split; [discriminate|].
      apply Forall_forall. intros s Hs.
      apply list_elem_of_In, in_map_iff in Hs as (b & <- & Hb).
      apply list_elem_of_In in Hb.
      rewrite (Hmany1 b) by
        (apply list_elem_of_further, Hb || apply Hmany, list_elem_of_further, Hb).
      auto.
  - intros [-> | [Hone Hmany]]; [reflexivity|]. unfold evaluate_model.
    destruct (concatenable (map squeezed_shape val_ds)) eqn:E; [|reflexivity].
    exfalso. destruct val_ds as [|b0 ds]; [discriminate|]. cbn [map] in E.
    apply concatenable_spec in E as [_ Hall].
    assert (forall b, b ∈ b0 :: ds ->
              length (squeezed_shape b) = length (squeezed_shape b0)) as Hlen.
    { intros b Hb. apply elem_of_cons in Hb as [-> | Hb]; [reflexivity|].
      rewrite Forall_forall in Hall.
      apply (Hall (squeezed_shape b)), list_elem_of_In, in_map, list_elem_of_In, Hb. }
    apply Exists_exists in Hone as (b1 & Hb1 & Hc1).
    apply Exists_exists in Hmany as (b2 & Hb2 & Hc2).
    pose proof (Hlen b1 Hb1) as H1. pose proof (Hlen b2 Hb2) as H2.
    rewrite (Hone1 b1 Hb1 Hc1) in H1. rewrite (Hmany1 b2 Hb2 Hc2) in H2.
    cbn [length] in H1, H2. lia.
Qed.

Lemma evaluate_model_batch_shapes_witness :
  (exists m,
     evaluate_model toy_forward (fun x => x) tf_reduce_sum tf_reduce_mean
       1%nat [toy_batch; flat_batch] false = Ok m /\
     length (e_preds m) = 8%nat) /\
  evaluate_model toy_forward (fun x => x) tf_reduce_sum tf_reduce_mean
    1%nat [two_cycle_batch; flat_batch] false = Err ValueError.
Proof.
  split.
  - destruct (proj1 (evaluate_model_batch_shapes toy_forward (fun x => x)
                       tf_reduce_sum tf_reduce_mean 1%nat
                       [toy_batch; flat_batch] false 4
                       ltac:(lia) ltac:(repeat constructor)))
      as (m & Hm & Hp & _).
    + split; [discriminate|]. left. repeat constructor.
    + exists m. split; [exact Hm|]. rewrite Hp. reflexivity.
  - apply (evaluate_model_batch_shapes toy_forward (fun x => x)
             tf_reduce_sum tf_reduce_mean 1%nat
             [two_cycle_batch; flat_batch] false 4).
    + lia.
    + repeat constructor; cbn; lia.
    + right. split.
      * apply Exists_cons_tl, Exists_cons_hd. reflexivity.
      * apply Exists_cons_hd. cbn. lia.
Defined.

Lemma simple_ecm_values_from_unit (current : list Q) (delta_t capacity : Q) :
  forall s,
    Forall (fun v => 0 <= v /\ v <= 1)
      (simple_ecm_values_from s current delta_t capacity).
Proof.
  induction current as [|c rest IH]; intros s; [constructor|].
  cbn [simple_ecm_values_from]. constructor; [apply clip_unit | apply IH].
Qed.

Lemma baseline_curve_unit (current : list Q) (num_points : nat) :
  Forall (fun v => 0 <= v /\ v <= 1)
    (anchor_resample (simple_ecm_values current 1 2) num_points).
Proof.
  destruct (simple_ecm_values current 1 2) as [|v vs] eqn:E.
  - simpl. unfold np_zeros. apply Forall_forall. intros v Hv.
    apply list_elem_of_In, repeat_spec in Hv. subst v. lra.
  - apply anchor_resample_bounds; [discriminate|].
    rewrite <- E. apply simple_ecm_values_from_unit.
Qed.

Lemma concat_resampled_length {A : Type} (f : A -> list Q) (L : nat)
    (l : list A) :
  (forall x, length (f x) = L) -> length (concat (map f l)) = (length l * L)%nat.
Proof.
  intros Hf. induction l as [|x l IH]; [reflexivity|].
  cbn [map concat length]. rewrite length_app, Hf, IH. lia.
Qed.

(** X13.  The baseline evaluation raises [ValueError] when there is no
    validation cycle or no target; otherwise it returns, its predictions
    all lie in [[0,1]], and predictions and true values both count
    [num_points] values for each pair of a cycle and a target. *)
Theorem ecm_baseline_eval_predictions (np_sqrt : xval -> xval)
    (val_cycles : list loaded_cycle) (val_soc : list (list Q))
    (num_points : nat) :
  (val_cycles = [] \/ val_soc = [] ->
   ecm_baseline_eval np_sqrt val_cycles val_soc num_points = Err ValueError) /\
  (val_cycles <> [] -> val_soc <> [] ->
   exists m,
     ecm_baseline_eval np_sqrt val_cycles val_soc num_points = Ok m /\
     Forall (fun p => 0 <= p /\ p <= 1) (e_preds m) /\
     length (e_preds m)
     = (Nat.min (length val_cycles) (length val_soc) * num_points)%nat /\
     length (e_trues m) = length (e_preds m)).
Proof.
  split.
  - intros [-> | ->]; [reflexivity|]. destruct val_cycles; reflexivity.
  - intros Hc Hs. destruct val_cycles as [|c cs]; [congruence|].
    destruct val_soc as [|s ss]; [congruence|].
    unfold ecm_baseline_eval. cbn [zip zip_with map np_concatenate].
    unfold_bind. eexists. split; [reflexivity|].
    cbn [eval_metrics e_preds e_trues].
    change (?x :: map ?f ?l) with (map f ((c, s) :: l)).
    split; [|split].
    + apply Forall_concat. apply Forall_forall. intros l Hl.
      apply list_elem_of_In, in_map_iff in Hl as (p & <- & _).
      apply baseline_curve_unit.
    + rewrite (concat_resampled_length _ num_points)
        by (intros; apply anchor_resample_length).
      change ((c, s) :: zip_with pair cs ss) with (zip (c :: cs) (s :: ss)).
      rewrite length_zip. reflexivity.
    + rewrite !(concat_resampled_length _ num_points)
        by (intros; apply anchor_resample_length).
      reflexivity.
Qed.

(** ** Corpus statistics *)

Lemma foldl_Qmin2_spec (rest : list Q) :
  forall x,
    foldl Qmin2 x rest ∈ x :: rest /\
    Forall (fun v => foldl Qmin2 x rest <= v) (x :: rest).
Proof.
  induction rest as [|y rest IH]; intros x.
  - cbn [foldl]. split; [apply list_elem_of_here|]. constructor; [lra|constructor].
  - cbn [foldl]. destruct (IH (Qmin2 x y)) as [Hin Hall].
    apply Forall_cons in Hall as [Hm Hall].
    assert (Qmin2 x y <= x /\ Qmin2 x y <= y /\ (Qmin2 x y = x \/ Qmin2 x y = y))
      as (Hx & Hy & Hxy).
    { unfold Qmin2. destruct (Qle_bool x y) eqn:E.
      - apply Qle_bool_iff in E. split; [lra|]. split; [lra|]. left. reflexivity.
      - assert (y <= x).
        { destruct (Qlt_le_dec y x); [lra|].
          apply Qle_bool_iff in q. congruence. }
        split; [lra|]. split; [lra|]. right. reflexivity. }
    split.
    + apply elem_of_cons in Hin as [Hin | Hin].
      * rewrite Hin. destruct Hxy as [-> | ->].
        -- apply list_elem_of_here.
        -- apply list_elem_of_further, list_elem_of_here.
      * apply list_elem_of_further, list_elem_of_further, Hin.
    + constructor; [lra|]. constructor; [lra|]. exact Hall.
Qed.

Lemma foldl_Qmax2_spec (rest : list Q) :
  forall x,
    foldl Qmax2 x rest ∈ x :: rest /\
    Forall (fun v => v <= foldl Qmax2 x rest) (x :: rest).
Proof.
  induction rest as [|y rest IH]; intros x.
  - cbn [foldl]. split; [apply list_elem_of_here|]. constructor; [lra|constructor].
  - cbn [foldl]. destruct (IH (Qmax2 x y)) as [Hin Hall].
    apply Forall_cons in Hall as [Hm Hall].
    assert (x <= Qmax2 x y /\ y <= Qmax2 x y /\ (Qmax2 x y = x \/ Qmax2 x y = y))
      as (Hx & Hy & Hxy).
    { unfold Qmax2. destruct (Qle_bool x y) eqn:E.
      - apply Qle_bool_iff in E. split; [lra|]. split; [lra|]. right. reflexivity.
      - assert (y <= x).
        { destruct (Qlt_le_dec y x); [lra|].
          apply Qle_bool_iff in q. congruence. }
        split; [lra|]. split; [lra|]. left. reflexivity. }
    split.
    + apply elem_of_cons in Hin as [Hin | Hin].
      * rewrite Hin. destruct Hxy as [-> | ->].
        -- apply list_elem_of_here.
        -- apply list_elem_of_further, list_elem_of_here.
      * apply list_elem_of_further, list_elem_of_further, Hin.
    + constructor; [lra|]. constructor; [lra|]. exact Hall.
Qed.

(** What one channel's pair is: two samples of the corpus that bound all
    of them. *)
Lemma channel_minmax_spec (key : loaded_cycle -> list Q)
    (cycles : list loaded_cycle) (lo hi : Q) :
  channel_minmax key cycles = Ok (lo, hi) ->
  lo ∈ concat (map key cycles) /\ hi ∈ concat (map key cycles) /\
  forall c v, c ∈ cycles -> v ∈ key c -> lo <= v /\ v <= hi.
Proof.
  unfold channel_minmax, np_concatenate. unfold_bind. intros H.
  destruct (map key cycles) as [|a0 arrays] eqn:Em; [discriminate|].
  rewrite <- Em in *. clear Em a0 arrays.
  destruct (concat (map key cycles)) as [|x rest] eqn:Ec; [discriminate|].
  cbn [np_min np_max] in H. injection H as <- <-.
  destruct (foldl_Qmin2_spec rest x) as [Hlin Hlo].
  destruct (foldl_Qmax2_spec rest x) as [Hhin Hhi].
  split; [exact Hlin|]. split; [exact Hhin|].
  intros c v Hc Hv.
  assert (v ∈ x :: rest) as Hin.
  { rewrite <- Ec. apply list_elem_of_In, in_concat. exists (key c).
    split; [apply in_map, list_elem_of_In, Hc | apply list_elem_of_In, Hv]. }
  rewrite Forall_forall in Hlo, Hhi. split; [apply Hlo | apply Hhi]; exact Hin.
Qed.

Lemma channel_minmax_defined (key : loaded_cycle -> list Q)
    (cycles : list loaded_cycle) :
  (concat (map key cycles) <> [] ->
   exists p, channel_minmax key cycles = Ok p) /\
  (concat (map key cycles) = [] ->
   channel_minmax key cycles = Err ValueError).
Proof.
  unfold channel_minmax, np_concatenate. unfold_bind. split.
  - intros Hne. destruct (map key cycles) as [|a0 arrays] eqn:Em;
      [simpl in Hne; congruence|].
    destruct (concat (a0 :: arrays)) as [|x rest]; [congruence|].
    eexists. reflexivity.
  - intros He. destruct (map key cycles) as [|a0 arrays]; [reflexivity|].
    rewrite He. reflexivity.
Qed.

(** What the statistics are: for each channel two samples of the corpus
    that bound all of them. *)
Lemma compute_minmax_spec (cycles : list loaded_cycle) (st : stats) :
  compute_minmax cycles = Ok st ->
  (fst (s_voltage st) ∈ concat (map lc_voltage cycles) /\
   snd (s_voltage st) ∈ concat (map lc_voltage cycles) /\
   fst (s_current st) ∈ concat (map lc_current cycles) /\
   snd (s_current st) ∈ concat (map lc_current cycles) /\
   fst (s_temperature st) ∈ concat (map lc_temperature cycles) /\
   snd (s_temperature st) ∈ concat (map lc_temperature cycles)) /\
  forall c, c ∈ cycles ->
    Forall (fun v => fst (s_voltage st) <= v /\ v <= snd (s_voltage st))
      (lc_voltage c) /\
    Forall (fun v => fst (s_current st) <= v /\ v <= snd (s_current st))
      (lc_current c) /\
    Forall (fun v => fst (s_temperature st) <= v /\ v <= snd (s_temperature st))
      (lc_temperature c).
Proof.
  unfold compute_minmax. unfold_bind. intros H.
  destruct (channel_minmax lc_voltage cycles) as [[vlo vhi]|e] eqn:Ev;
    [|discriminate].
  destruct (channel_minmax lc_current cycles) as [[clo chi]|e] eqn:Ec;
    [|discriminate].
  destruct (channel_minmax lc_temperature cycles) as [[tlo thi]|e] eqn:Et;
    [|discriminate].
  injection H as <-. cbn [s_voltage s_current s_temperature fst snd].
  apply channel_minmax_spec in Ev as (Hv1 & Hv2 & Hv).
  apply channel_minmax_spec in Ec as (Hc1 & Hc2 & Hc).
  apply channel_minmax_spec in Et as (Ht1 & Ht2 & Ht).
  split; [tauto|]. intros c Hin.
  repeat split; apply Forall_forall; intros v Hvin; eauto.
Qed.

(** X14.  The statistics, when [compute_minmax] returns them, bound the
    corpus: for each of the three channels the pair is made of two
    samples of the corpus, and every sample of every cycle lies between
    them. *)
Theorem compute_minmax_bounds (cycles : list loaded_cycle) (st : stats) :
  compute_minmax cycles = Ok st ->
  (fst (s_voltage st) ∈ concat (map lc_voltage cycles) /\
   snd (s_voltage st) ∈ concat (map lc_voltage cycles) /\
   fst (s_current st) ∈ concat (map lc_current cycles) /\
   snd (s_current st) ∈ concat (map lc_current cycles) /\
   fst (s_temperature st) ∈ concat (map lc_temperature cycles) /\
   snd (s_temperature st) ∈ concat (map lc_temperature cycles)) /\
  forall c, c ∈ cycles ->
    Forall (fun v => fst (s_voltage st) <= v /\ v <= snd (s_voltage st))
      (lc_voltage c) /\
    Forall (fun v => fst (s_current st) <= v /\ v <= snd (s_current st))
      (lc_current c) /\
    Forall (fun v => fst (s_temperature st) <= v /\ v <= snd (s_temperature st))
      (lc_temperature c).
Proof. apply compute_minmax_spec. Qed.

Lemma compute_minmax_bounds_witness :
  exists st,
    compute_minmax
      [{| lc_voltage := [4; 3]; lc_current := [2]; lc_temperature := [24; 30] |};
       {| lc_voltage := [5]; lc_current := [1; 3]; lc_temperature := [20] |}]
    = Ok st /\
    s_voltage st = (3, 5) /\
    forall c,
      c ∈ [{| lc_voltage := [4; 3]; lc_current := [2];
              lc_temperature := [24; 30] |};
           {| lc_voltage := [5]; lc_current := [1; 3];
              lc_temperature := [20] |}] ->
      Forall (fun v => fst (s_voltage st) <= v /\ v <= snd (s_voltage st))
        (lc_voltage c).
Proof.
  assert (exists st,
    compute_minmax
      [{| lc_voltage := [4; 3]; lc_current := [2]; lc_temperature := [24; 30] |};
       {| lc_voltage := [5]; lc_current := [1; 3]; lc_temperature := [20] |}]
    = Ok st /\ s_voltage st = (3, 5)) as (st & Hst & Hv)
    by (eexists; split; vm_compute; reflexivity).
  exists st. split; [exact Hst|]. split; [exact Hv|].
  intros c Hc.
  exact (proj1 (proj2 (compute_minmax_bounds _ _ Hst) c Hc)).
Defined.

(** X15.  [compute_minmax] returns statistics exactly when each of the
    three channels has a sample somewhere in the corpus; otherwise, and
    so for an empty corpus, it raises [ValueError]. *)
Theorem compute_minmax_defined (cycles : list loaded_cycle) :
  (concat (map lc_voltage cycles) <> [] /\
   concat (map lc_current cycles) <> [] /\
   concat (map lc_temperature cycles) <> [] ->
   exists st, compute_minmax cycles = Ok st) /\
  (concat (map lc_voltage cycles) = [] \/
   concat (map lc_current cycles) = [] \/
   concat (map lc_temperature cycles) = [] ->
   compute_minmax cycles = Err ValueError).
Proof.
  unfold compute_minmax. unfold_bind.
  destruct (channel_minmax_defined lc_voltage cycles) as [Hv1 Hv0].
  destruct (channel_minmax_defined lc_current cycles) as [Hc1 Hc0].
  destruct (channel_minmax_defined lc_temperature cycles) as [Ht1 Ht0].
  split.
  - intros (Hv & Hc & Ht).
    destruct (Hv1 Hv) as [pv ->]. destruct (Hc1 Hc) as [pc ->].
    destruct (Ht1 Ht) as [pt ->]. eexists. reflexivity.
  - intros H.
    destruct (concat (map lc_voltage cycles)) as [|v vs] eqn:Ev.
    { rewrite (Hv0 eq_refl). reflexivity. }
    destruct (Hv1 ltac:(discriminate)) as [pv ->].
    destruct (concat (map lc_current cycles)) as [|c cs] eqn:Ec.
    { rewrite (Hc0 eq_refl). reflexivity. }
    destruct (Hc1 ltac:(discriminate)) as [pc ->].
    destruct H as [H | [H | H]]; try discriminate.
    rewrite (Ht0 H). reflexivity.
Qed.

Lemma compute_minmax_defined_witness :
  compute_minmax [] = Err ValueError.
Proof.
  apply (proj2 (compute_minmax_defined [])). left. reflexivity.
Defined.

Lemma ecm_baseline_eval_predictions_witness :
  exists m,
    ecm_baseline_eval (fun x => x)
      [{| lc_voltage := [4; 3]; lc_current := [1800; 1800; 7200];
          lc_temperature := [24; 30] |}] [[1; 1 # 2; 0]] 5 = Ok m /\
    Forall (fun p => 0 <= p /\ p <= 1) (e_preds m) /\
    length (e_preds m) = 5%nat.
Proof.
  destruct (proj2 (ecm_baseline_eval_predictions (fun x => x)
              [{| lc_voltage := [4; 3]; lc_current := [1800; 1800; 7200];
                  lc_temperature := [24; 30] |}] [[1; 1 # 2; 0]] 5))
    as (m & Hm & Hu & Hl & _); [discriminate | discriminate |].
  exists m. split; [exact Hm|]. split; [exact Hu | exact Hl].
Defined.

(** ** Features *)







(** ** Reading the table back *)

Lemma row_cycle_wide (r : row) (L : nat) :
  wide_row L r -> row_cycle r L = Ok (row_cycle_of r L).
Proof.
  intros (Hv & Hc & Ht & Hs). unfold row_cycle, row_series. unfold_bind.
  rewrite (proj2 (Nat.leb_le _ _) Hv), (proj2 (Nat.leb_le _ _) Hc),
    (proj2 (Nat.leb_le _ _) Ht), (proj2 (Nat.leb_le _ _) Hs).
  reflexivity.
Qed.

Lemma load_rows_spec (L cap : nat) (df : list row) :
  Forall (wide_row L) df ->
  forall (all_cycles : list loaded_cycle) (all_socs : list (list xval)),
    load_rows L cap df all_cycles all_socs =
    let k := Nat.min (length df) (Nat.max 1 (cap - length all_cycles)) in
    Ok (all_cycles ++ map (fun r => fst (row_cycle_of r L)) (take k df),
        all_socs ++ map (fun r => snd (row_cycle_of r L)) (take k df)).
Proof.
  induction 1 as [|r rest Hr _ IH]; intros all_cycles all_socs.
  - cbn [load_rows length Nat.min take map]. rewrite !app_nil_r. reflexivity.
  - cbn [load_rows]. rewrite (row_cycle_wide r L Hr). unfold_bind.
    cbn zeta.
    destruct (row_cycle_of r L) as [cycle soc] eqn:Eof.
    destruct (cap <=? length (all_cycles ++ [cycle]))%nat eqn:E.
    + apply Nat.leb_le in E. rewrite length_app in E. cbn [length] in E.
      replace (Nat.min (length (r :: rest))
                 (Nat.max 1 (cap - length all_cycles))) with 1%nat
        by (cbn [length]; lia).
      cbn [take map]. rewrite Eof. destruct rest; reflexivity.
    + apply Nat.leb_gt in E. rewrite length_app in E. cbn [length] in E.
      rewrite IH. cbv zeta.
      replace (Nat.min (length (r :: rest))
                 (Nat.max 1 (cap - length all_cycles)))
        with (S (Nat.min (length rest)
                   (Nat.max 1 (cap - length (all_cycles ++ [cycle])))))
        by (rewrite length_app; cbn [length]; lia).
      cbn [take map]. rewrite Eof. cbn [fst snd].
      rewrite <- !app_assoc. reflexivity.
Qed.

Lemma load_cycles_from_csv_wide (df : list row) (L cap : nat) :
  Forall (wide_row L) df ->
  let k := Nat.min (length df) (Nat.max 1 cap) in
  exists tc ts vc vs,
    load_cycles_from_csv df L cap = Ok (tc, ts, vc, vs) /\
    tc ++ vc = map (fun r => fst (row_cycle_of r L)) (take k df) /\
    ts ++ vs = map (fun r => snd (row_cycle_of r L)) (take k df) /\
    length tc = (4 * k / 5)%nat /\ length ts = length tc /\
    length vc = length vs.
Proof.
  intros Hw k. unfold load_cycles_from_csv.
  rewrite (load_rows_spec L cap df Hw [] []). cbv zeta. unfold_bind.
  cbn [length app]. rewrite Nat.sub_0_r. fold k.
  set (cs := map (fun r => fst (row_cycle_of r L)) (take k df)).
  set (ss := map (fun r => snd (row_cycle_of r L)) (take k df)).
  assert (length cs = k) as Hcs.
  { subst cs. rewrite length_map, length_take. subst k. lia. }
  assert (length ss = k) as Hss.
  { subst ss. rewrite length_map, length_take. subst k. lia. }
  do 4 eexists. split; [reflexivity|].
  rewrite !take_drop. split; [reflexivity|]. split; [reflexivity|].
  rewrite !length_take, !length_drop, Hcs, Hss.
  assert (4 * k / 5 <= k)%nat by (apply Nat.Div0.div_le_upper_bound; lia).
  lia.
Qed.

(** X17.  From a table whose rows have [num_points] columns or more per
    series, [load_cycles_from_csv] reads the first [k] rows, where [k] is
    the smaller of the number of rows and of [max_cycles] (one when
    [max_cycles] is zero): the training part followed by the validation
    part are those [k] cycles in the order of the table, the training
    part counts [4k/5] of them rounded down, and the targets are split
    the same way. *)
Theorem load_cycles_from_csv_split (df : list row) (L cap : nat) :
  Forall (wide_row L) df ->
  let k := Nat.min (length df) (Nat.max 1 cap) in
  exists tc ts vc vs,
    load_cycles_from_csv df L cap = Ok (tc, ts, vc, vs) /\
    tc ++ vc = map (fun r => fst (row_cycle_of r L)) (take k df) /\
    ts ++ vs = map (fun r => snd (row_cycle_of r L)) (take k df) /\
    length tc = (4 * k / 5)%nat /\ length ts = length tc /\
    length vc = length vs.
Proof. apply load_cycles_from_csv_wide. Qed.

Lemma load_cycles_from_csv_split_witness :
  exists tc ts vc vs,
    load_cycles_from_csv
      (repeat {| r_battery_id := "B0005"; r_cycle_id := 0;
                 r_time_cycle_start := "N/A"; r_ambient_temperature := XFin 24;
                 r_capacity_k := XNaN; r_cap_0 := XFin 2; r_fade := XNaN;
                 r_cutoff_voltage := XNaN; r_discharge_type := "";
                 r_discharge_amplitude := XNaN; r_discharge_frequency := XNaN;
                 r_discharge_dutycycle := XNaN;
                 r_voltage := [4; 3]; r_current := [2; 2];
                 r_temperature := [24; 25]; r_time := [0; 10];
                 r_soc := [XFin 1; XFin 0] |} 7) 2 5 = Ok (tc, ts, vc, vs) /\
    length tc = 4%nat /\ length vc = 1%nat.
Proof.
  destruct (load_cycles_from_csv_split
    (repeat {| r_battery_id := "B0005"; r_cycle_id := 0;
               r_time_cycle_start := "N/A"; r_ambient_temperature := XFin 24;
               r_capacity_k := XNaN; r_cap_0 := XFin 2; r_fade := XNaN;
               r_cutoff_voltage := XNaN; r_discharge_type := "";
               r_discharge_amplitude := XNaN; r_discharge_frequency := XNaN;
               r_discharge_dutycycle := XNaN;
               r_voltage := [4; 3]; r_current := [2; 2];
               r_temperature := [24; 25]; r_time := [0; 10];
               r_soc := [XFin 1; XFin 0] |} 7) 2 5)
    as (tc & ts & vc & vs & Hload & Hc & _ & Hl & _ & _).
  - repeat constructor.
  - exists tc, ts, vc, vs. split; [exact Hload|].
    apply (f_equal length) in Hc. rewrite length_app in Hc.
    cbv zeta in Hl, Hc.
    change (length tc = 4%nat) in Hl.
    change (length tc + length vc = 5)%nat in Hc.
    split; [exact Hl | lia].
Defined.

(** ** The table that is written *)

Lemma cycle_row_Some_shape (battery_id : string) (meta : battery_meta)
    (L i : nat) (e : entry) (r : row) :
  cycle_row battery_id meta L i e = Ok (Some r) ->
  full_row L r /\ r_battery_id r = battery_id /\
  r_cap_0 r = or_nan (m_c0 meta) /\
  r_fade r = or_nan (m_fade_in_percent meta).
Proof.
  destruct e as [|c]; [discriminate|]. intros H. unfold cycle_row in H.
  destruct (String.eqb (lower (default "" (c_type c))) "discharge");
    [|discriminate].
  cbn [negb] in H.
  fold (c_channel c "Voltage_measured" "voltage") in H.
  fold (c_channel c "Current_measured" "current") in H.
  fold (c_channel c "Temperature_measured" "temperature") in H.
  fold (c_channel c "Time" "time") in H.
  fold (c_voltage c) (c_current c) (c_temperature c) (c_time_channel c) in H.
  rewrite !py_len_squeeze, !anchor_resample_nd_squeeze in H.
  unfold mbind, result_bind, rbind in H.
  case_single (c_voltage c).
  destruct (length (c_voltage c) <? 5)%nat; [discriminate|].
  case_single (c_current c).
  destruct (length (c_current c) <? 5)%nat; [discriminate|].
  case_single (c_temperature c). case_single (c_time_channel c).
  injection H as <-. unfold full_row, soc_from_time. cbn.
  rewrite length_map, !anchor_resample_length. repeat split; reflexivity.
Qed.

Lemma process_cycles_all (P : row -> Prop) (battery_id : string)
    (meta : battery_meta) (L : nat) (cycles : list entry) :
  (forall i e r, cycle_row battery_id meta L i e = Ok (Some r) -> P r) ->
  forall (i : nat) (results rows : list row),
    Forall P results ->
    process_cycles battery_id meta L i cycles results = Ok rows ->
    Forall P rows.
Proof.
  intros HP. induction cycles as [|e rest IH]; intros i results rows Hres H.
  - injection H as <-. exact Hres.
  - cbn [process_cycles] in H. unfold mbind, result_bind, rbind in H.
    destruct (cycle_row battery_id meta L i e) as [[r|]|err] eqn:Er;
      [| |discriminate].
    + assert (Forall P (results ++ [r])) as Hres'.
      { apply Forall_app. split; [exact Hres|].
        constructor; [exact (HP _ _ _ Er) | constructor]. }
      destruct (MAX_CYCLES <=? length (results ++ [r]))%nat.
      * injection H as <-. exact Hres'.
      * exact (IH _ _ _ Hres' H).
    + exact (IH _ _ _ Hres H).
Qed.

Lemma process_battery_all (P : row -> Prop) (fs : gmap string mat_file)
    (battery_id : string) (meta : battery_meta) (base_path : string)
    (L : nat) (rows : list row) :
  (forall i e r, cycle_row battery_id meta L i e = Ok (Some r) -> P r) ->
  process_battery fs battery_id meta base_path L = Ok rows ->
  Forall P rows.
Proof.
  intros HP H. unfold process_battery in H.
  destruct (m_sub_dir meta) as [sub_dir|]; [|discriminate].
  destruct (fs !! mat_path base_path sub_dir battery_id) as [[| |cycles]|];
    try (injection H as <-; constructor).
  apply (process_cycles_all P _ _ _ _ HP _ _ _ (List.Forall_nil P) H).
Qed.

Lemma extract_batteries_all (P : row -> Prop) (fs : gmap string mat_file)
    (mat_dir : string) (L max_cycles : nat)
    (batteries : list (string * battery_meta)) :
  (forall battery_id meta i e r,
     (battery_id, meta) ∈ batteries -> default true (m_usable meta) = true ->
     cycle_row battery_id meta L i e = Ok (Some r) -> P r) ->
  forall (all_data rows : list row),
    Forall P all_data ->
    extract_batteries fs mat_dir L max_cycles batteries all_data = Ok rows ->
    Forall P rows.
Proof.
  induction batteries as [|[battery_id meta] rest IH];
    intros HP all_data rows Hall H.
  - injection H as <-. exact Hall.
  - assert (forall battery_id meta i e r,
              (battery_id, meta) ∈ rest ->
              default true (m_usable meta) = true ->
              cycle_row battery_id meta L i e = Ok (Some r) -> P r) as HP'.
    { intros b m i e r Hin. apply HP. apply list_elem_of_further, Hin. }
    cbn [extract_batteries] in H.
    destruct (default true (m_usable meta)) eqn:Eu; cbn [negb] in H;
      [|exact (IH HP' _ _ Hall H)].
    unfold mbind, result_bind, rbind in H.
    destruct (process_battery fs battery_id meta mat_dir L) as [data_rows|err]
      eqn:Ep; [|discriminate].
    assert (Forall P (all_data ++ data_rows)) as Hall'.
    { apply Forall_app. split; [exact Hall|].
      apply (process_battery_all P _ _ _ _ _ _
               (fun i e r => HP battery_id meta i e r
                               (list_elem_of_here _ _) Eu) Ep). }
    destruct (max_cycles <=? length (all_data ++ data_rows))%nat.
    + injection H as <-. exact Hall'.
    + exact (IH HP' _ _ Hall' H).
Qed.

Lemma preprocess_rows_full (fs : gmap string mat_file) (mat_dir : string)
    (batteries : list (string * battery_meta)) (L max_cycles : nat)
    (rows : list row) :
  preprocess_and_save_csv fs mat_dir batteries L max_cycles = Ok rows ->
  Forall (fun r => full_row L r /\ row_of_battery batteries r) rows.
Proof.
  intros H. unfold preprocess_and_save_csv in H.
  apply (extract_batteries_all _ fs mat_dir L max_cycles batteries)
    with (all_data := []); [|constructor|exact H].
  intros battery_id meta i e r Hin Hu Hr.
  destruct (cycle_row_Some_shape _ _ _ _ _ _ Hr) as (Hf & Hid & Hc0 & Hfade).
  split; [exact Hf|]. exists meta. rewrite Hid. auto.
Qed.

(** X18.  Every row of the table [preprocess_and_save_csv] writes has the
    five series (voltage, current, temperature, time and SOC) with
    exactly [num_points] columns each, and carries the identifier, the
    initial capacity and the fade of a battery of the metadata that is
    not marked unusable. *)
Theorem preprocess_rows_wellformed (fs : gmap string mat_file)
    (mat_dir : string) (batteries : list (string * battery_meta))
    (num_points max_cycles : nat) (rows : list row) :
  preprocess_and_save_csv fs mat_dir batteries num_points max_cycles = Ok rows ->
  Forall (fun r => full_row num_points r /\ row_of_battery batteries r) rows.
Proof. apply preprocess_rows_full. Qed.

Lemma preprocess_rows_wellformed_witness :
  exists rows,
    preprocess_and_save_csv
      (one_battery_store [sample_cycle "discharge" five_samples;
                          sample_cycle "charge" five_samples;
                          sample_cycle "discharge" five_samples])
      "/mat" [("B0005", no_discharge_meta)] 3 10 = Ok rows /\
    length rows = 2%nat /\
    Forall (fun r => full_row 3 r /\
                     row_of_battery [("B0005", no_discharge_meta)] r) rows.
Proof.
  assert (exists rows,
    preprocess_and_save_csv
      (one_battery_store [sample_cycle "discharge" five_samples;
                          sample_cycle "charge" five_samples;
                          sample_cycle "discharge" five_samples])
      "/mat" [("B0005", no_discharge_meta)] 3 10 = Ok rows /\
    length rows = 2%nat) as (rows & Hrows & Hlen)
    by (eexists; split; vm_compute; reflexivity).
  exists rows. split; [exact Hrows|]. split; [exact Hlen|].
  exact (preprocess_rows_wellformed _ _ _ _ _ _ Hrows).
Defined.

Lemma row_cycle_of_full (L : nat) (r : row) :
  full_row L r -> row_cycle_of r L = (row_loaded r, r_soc r).
Proof.
  intros (Hv & Hc & Ht & _ & Hs). unfold row_cycle_of, row_loaded.
  rewrite !take_ge by lia. reflexivity.
Qed.

Lemma full_row_wide (L : nat) (r : row) : full_row L r -> wide_row L r.
Proof. intros (Hv & Hc & Ht & _ & Hs). unfold wide_row. lia. Qed.

(** X19.  A table of one row or more that [preprocess_and_save_csv]
    writes is read back by [load_cycles_from_csv] with the same number
    of points without an error, whatever the cap of the reader: the
    cycles returned (training part, then validation part) are the
    voltage, current and temperature series of the first rows as
    written, and the targets are their SOC series.  A table without rows
    is written as a file that [pd.read_csv] refuses with
    [EmptyDataError]. *)
Theorem preprocess_then_load (fs : gmap string mat_file) (mat_dir : string)
    (batteries : list (string * battery_meta))
    (num_points max_cycles cap : nat) (rows : list row) :
  preprocess_and_save_csv fs mat_dir batteries num_points max_cycles = Ok rows ->
  (rows = [] ->
   load_cycles_from_written rows num_points cap = Err EmptyDataError) /\
  (rows <> [] ->
   let k := Nat.min (length rows) (Nat.max 1 cap) in
   exists tc ts vc vs,
     load_cycles_from_written rows num_points cap = Ok (tc, ts, vc, vs) /\
     tc ++ vc = map row_loaded (take k rows) /\
     ts ++ vs = map r_soc (take k rows)).
Proof.
  intros H. split; [intros ->; reflexivity|]. intros Hne k.
  assert (load_cycles_from_written rows num_points cap
          = load_cycles_from_csv rows num_points cap) as ->
    by (destruct rows; [congruence | reflexivity]).
  pose proof (preprocess_rows_full _ _ _ _ _ _ H) as Hfull.
  assert (Forall (full_row num_points) rows) as Hf
    by (eapply Forall_impl; [exact Hfull | intros r [Hr _]; exact Hr]).
  assert (Forall (wide_row num_points) rows) as Hw
    by (eapply Forall_impl; [exact Hf | apply full_row_wide]).
  destruct (load_cycles_from_csv_wide rows num_points cap Hw)
    as (tc & ts & vc & vs & Hload & Hc & Hs & _).
  exists tc, ts, vc, vs. split; [exact Hload|]. fold k in Hc, Hs.
  assert (Forall (full_row num_points) (take k rows)) as Hft
    by (apply Forall_take, Hf).
  rewrite Hc, Hs. split.
  - apply map_ext_Forall. eapply Forall_impl; [exact Hft|].
    intros r Hr. cbn beta. rewrite (row_cycle_of_full _ _ Hr). reflexivity.
  - apply map_ext_Forall. eapply Forall_impl; [exact Hft|].
    intros r Hr. cbn beta. rewrite (row_cycle_of_full _ _ Hr). reflexivity.
Qed.

Lemma preprocess_then_load_witness :
  exists rows tc ts vc vs,
    preprocess_and_save_csv
      (one_battery_store [sample_cycle "discharge" five_samples;
                          sample_cycle "discharge" five_samples])
      "/mat" [("B0005", no_discharge_meta)] 3 10 = Ok rows /\
    load_cycles_from_written rows 3 10 = Ok (tc, ts, vc, vs) /\
    tc ++ vc = map row_loaded rows.
Proof.
  assert (exists rows,
    preprocess_and_save_csv
      (one_battery_store [sample_cycle "discharge" five_samples;
                          sample_cycle "discharge" five_samples])
      "/mat" [("B0005", no_discharge_meta)] 3 10 = Ok rows /\
    length rows = 2%nat) as (rows & Hrows & Hlen)
    by (eexists; split; vm_compute; reflexivity).
  destruct (proj2 (preprocess_then_load _ _ _ _ _ 10 _ Hrows))
    as (tc & ts & vc & vs & Hload & Hc & _).
  { intros ->. discriminate Hlen. }
  exists rows, tc, ts, vc, vs. split; [exact Hrows|]. split; [exact Hload|].
  rewrite Hc, Hlen. change (Nat.min 2 (Nat.max 1 10)) with 2%nat.
  rewrite take_ge by lia. reflexivity.
Defined.

(** X20.  Batteries marked unusable play no part in the extraction: the
    table is the one obtained from the metadata with these batteries
    removed, whatever records exist for them. *)
Theorem preprocess_skips_unusable (fs : gmap string mat_file)
    (mat_dir : string) (batteries : list (string * battery_meta))
    (num_points max_cycles : nat) :
  preprocess_and_save_csv fs mat_dir batteries num_points max_cycles =
  preprocess_and_save_csv fs mat_dir (List.filter usable batteries)
    num_points max_cycles.
Proof.
  unfold preprocess_and_save_csv. generalize (@nil row) as all_data.
  induction batteries as [|[battery_id meta] rest IH]; intros all_data;
    [reflexivity|].
  cbn [extract_batteries List.filter]. unfold usable at 1. cbn [snd].
  destruct (default true (m_usable meta)) eqn:Eu; cbn [negb].
  - cbn [extract_batteries]. rewrite Eu. cbn [negb]. unfold_bind.
    destruct (process_battery fs battery_id meta mat_dir num_points)
      as [data_rows|err]; [|reflexivity].
    destruct (max_cycles <=? length (all_data ++ data_rows))%nat;
      [reflexivity | apply IH].
  - apply IH.
Qed.

Lemma extract_batteries_without (fs : gmap string mat_file)
    (mat_dir sub_dir : string) (L max_cycles : nat) (battery_id : string)
    (meta : battery_meta) (pre rest : list (string * battery_meta)) :
  m_sub_dir meta = Some sub_dir ->
  no_cycles (fs !! mat_path mat_dir sub_dir battery_id) ->
  forall all_data : list row,
    (length all_data < max_cycles)%nat ->
    extract_batteries fs mat_dir L max_cycles
      (pre ++ (battery_id, meta) :: rest) all_data =
    extract_batteries fs mat_dir L max_cycles (pre ++ rest) all_data.
Proof.
  intros Hsub Hno. induction pre as [|[b m] pre IH]; intros all_data Hlen.
  - cbn [app extract_batteries].
    destruct (negb (default true (m_usable meta))); [reflexivity|].
    assert (process_battery fs battery_id meta mat_dir L = Ok []) as ->.
    { unfold process_battery. rewrite Hsub.
      destruct (fs !! mat_path mat_dir sub_dir battery_id) as [[| |cycles]|];
        try reflexivity.
      contradiction. }
    unfold_bind. rewrite app_nil_r.
    apply Nat.leb_gt in Hlen. rewrite Hlen. reflexivity.
  - cbn [app extract_batteries].
    destruct (negb (default true (m_usable m))); [apply IH, Hlen|].
    unfold_bind.
    destruct (process_battery fs b m mat_dir L) as [data_rows|err];
      [|reflexivity].
    destruct (max_cycles <=? length (all_data ++ data_rows))%nat eqn:E;
      [reflexivity|].
    apply IH. apply Nat.leb_gt in E. exact E.
Qed.

(** X21.  With a cap of one or more, a battery whose record file is
    absent, cannot be read or has no cycle field adds nothing and stops
    nothing: the table is the one obtained without this battery. *)
Theorem preprocess_missing_record (fs : gmap string mat_file)
    (mat_dir sub_dir : string) (num_points max_cycles : nat)
    (battery_id : string) (meta : battery_meta)
    (pre rest : list (string * battery_meta)) :
  (1 <= max_cycles)%nat ->
  m_sub_dir meta = Some sub_dir ->
  no_cycles (fs !! mat_path mat_dir sub_dir battery_id) ->
  preprocess_and_save_csv fs mat_dir (pre ++ (battery_id, meta) :: rest)
    num_points max_cycles =
  preprocess_and_save_csv fs mat_dir (pre ++ rest) num_points max_cycles.
Proof.
  intros Hcap Hsub Hno. unfold preprocess_and_save_csv.
  apply (extract_batteries_without _ _ sub_dir); [exact Hsub | exact Hno |].
  cbn [length]. lia.
Qed.

Lemma preprocess_missing_record_witness :
  preprocess_and_save_csv
    (one_battery_store [sample_cycle "discharge" five_samples])
    "/mat" ([] ++ ("B0099", no_discharge_meta) :: [("B0005", no_discharge_meta)])
    3 10 =
  preprocess_and_save_csv
    (one_battery_store [sample_cycle "discharge" five_samples])
    "/mat" ([] ++ [("B0005", no_discharge_meta)]) 3 10.
Proof.
  apply (preprocess_missing_record _ _ "data").
  - lia.
  - reflexivity.
  - vm_compute. exact I.
Defined.

(** X22.  The table has fewer than [max(1, max_cycles) + MAX_CYCLES]
    rows: the cap is tested after the rows of a whole battery are added,
    also when it is zero, and a battery gives [MAX_CYCLES] rows at
    most. *)
Theorem preprocess_rows_at_most (fs : gmap string mat_file)
    (mat_dir : string) (batteries : list (string * battery_meta))
    (num_points max_cycles : nat) (rows : list row) :
  preprocess_and_save_csv fs mat_dir batteries num_points max_cycles = Ok rows ->
  (length rows < Nat.max 1 max_cycles + MAX_CYCLES)%nat.
Proof.
  intros H. apply preprocess_rows_bound in H.
  pose proof MAX_CYCLES_pos. lia.
Qed.

Lemma preprocess_rows_at_most_witness :
  exists rows,
    preprocess_and_save_csv
      (one_battery_store [sample_cycle "discharge" five_samples;
                          sample_cycle "discharge" five_samples;
                          sample_cycle "discharge" five_samples])
      "/mat" [("B0005", no_discharge_meta)] 2 2 = Ok rows /\
    (length rows < Nat.max 1 2 + MAX_CYCLES)%nat.
Proof.
  assert (exists rows,
    preprocess_and_save_csv
      (one_battery_store [sample_cycle "discharge" five_samples;
                          sample_cycle "discharge" five_samples;
                          sample_cycle "discharge" five_samples])
      "/mat" [("B0005", no_discharge_meta)] 2 2 = Ok rows) as (rows & Hrows)
    by (eexists; vm_compute; reflexivity).
  exists rows. split; [exact Hrows|].
  exact (preprocess_rows_at_most _ _ _ _ _ _ Hrows).
Defined.

(** ** Record conversion *)

Lemma mat_struct_to_dict_dict (items : list (string * pyval)) :
  mat_struct_to_dict (PDict items) =
  PDict (map (fun kv => (fst kv, mat_struct_to_dict (snd kv))) items).
Proof.
  cbn [mat_struct_to_dict]. f_equal.
  induction items as [|[k v] rest IH]; [reflexivity|].
  cbn [map fst snd]. rewrite <- IH. reflexivity.
Qed.

Lemma mat_struct_to_dict_struct (fields : list (string * pyval)) :
  mat_struct_to_dict (PStruct fields) =
  PDict (foldl (fun out kv => dict_set (fst kv) (mat_struct_to_dict (snd kv)) out)
           [] fields).
Proof.
  cbn [mat_struct_to_dict]. f_equal. generalize (@nil (string * pyval)) as out.
  induction fields as [|[k v] rest IH]; intros out; [reflexivity|].
  cbn [foldl fst snd]. rewrite <- IH. reflexivity.
Qed.

Lemma mat_struct_to_dict_array (elems : list pyval) :
  mat_struct_to_dict (PObjArray elems) = PList (map mat_struct_to_dict elems).
Proof.
  cbn [mat_struct_to_dict]. f_equal.
Qed.

Lemma dict_set_Forall (Q : string * pyval -> Prop) (k : string) (v : pyval)
    (out : list (string * pyval)) :
  Forall Q out -> Q (k, v) -> Forall Q (dict_set k v out).
Proof.
  intros Hout Hkv. induction Hout as [|[k' v'] rest Hx Hrest IH].
  - repeat constructor. exact Hkv.
  - cbn [dict_set]. destruct (String.eqb k' k); constructor; assumption.
Qed.

Lemma fields_fold_Forall (Q : string * pyval -> Prop)
    (fields : list (string * pyval)) :
  Forall (fun kv => Q (fst kv, mat_struct_to_dict (snd kv))) fields ->
  forall out, Forall Q out ->
    Forall Q (foldl (fun out kv =>
                       dict_set (fst kv) (mat_struct_to_dict (snd kv)) out)
                out fields).
Proof.
  induction 1 as [|kv rest Hkv _ IH]; intros out Hout; [exact Hout|].
  cbn [foldl]. apply IH, dict_set_Forall; assumption.
Qed.

(** X23.  Converting a converted record changes nothing. *)
Theorem mat_struct_to_dict_idempotent (matobj : pyval) :
  mat_struct_to_dict (mat_struct_to_dict matobj) = mat_struct_to_dict matobj.
Proof.
  induction matobj as [items IH|fields IH|elems IH|elems|elems IH|q|s]
    using pyval_nested_ind; try reflexivity.
  - rewrite !mat_struct_to_dict_dict. f_equal. rewrite map_map.
    apply map_ext_Forall. eapply Forall_impl; [exact IH|].
    intros [k v] Hv. cbn [fst snd] in *. rewrite Hv. reflexivity.
  - rewrite mat_struct_to_dict_struct, mat_struct_to_dict_dict. f_equal.
    rewrite <- (map_id (foldl _ _ _)) at 2.
    apply map_ext_Forall.
    apply (fields_fold_Forall
             (fun kv => (fst kv, mat_struct_to_dict (snd kv)) = kv));
      [|constructor].
    eapply Forall_impl; [exact IH|].
    intros [k v] Hv. cbn [fst snd] in *. rewrite Hv. reflexivity.
Qed.

(** X24.  Of a value that holds no Python list, as [loadmat] returns
    them, the conversion leaves no [mat_struct] and no array of objects
    at any depth: only dicts, lists, numeric arrays and scalars. *)
Theorem mat_struct_to_dict_converted (matobj : pyval) :
  no_lists matobj = true -> converted (mat_struct_to_dict matobj) = true.
Proof.
  induction matobj as [items IH|fields IH|elems IH|elems|elems IH|q|s]
    using pyval_nested_ind; intros Hno; try reflexivity.
  - rewrite mat_struct_to_dict_dict. cbn [converted no_lists] in *.
    rewrite forallb_forall in Hno. apply forallb_forall.
    intros kv' Hin. apply in_map_iff in Hin as ([k v] & <- & Hin).
    cbn [fst snd]. rewrite Forall_forall in IH.
    apply (IH (k, v)); [apply list_elem_of_In, Hin | exact (Hno _ Hin)].
  - rewrite mat_struct_to_dict_struct. cbn [converted no_lists] in *.
    rewrite forallb_forall in Hno. apply forallb_forall.
    intros kv Hin. apply list_elem_of_In in Hin. revert kv Hin.
    apply Forall_forall.
    apply (fields_fold_Forall (fun kv => converted (snd kv) = true));
      [|constructor].
    apply Forall_forall. intros [k v] Hin. cbn [fst snd].
    rewrite Forall_forall in IH.
    apply (IH (k, v) Hin). apply (Hno (k, v)), list_elem_of_In, Hin.
  - rewrite mat_struct_to_dict_array. cbn [converted no_lists] in *.
    rewrite forallb_forall in Hno. apply forallb_forall.
    intros el' Hin. apply in_map_iff in Hin as (el & <- & Hin).
    rewrite Forall_forall in IH.
    apply (IH el); [apply list_elem_of_In, Hin | exact (Hno _ Hin)].
  - discriminate.
Qed.

Lemma mat_struct_to_dict_converted_witness :
  converted
    (mat_struct_to_dict
       (PDict [("B0005",
                PStruct [("cycle",
                          PObjArray
                            [PStruct [("type", PStr "discharge");
                                      ("data",
                                       PStruct [("Voltage_measured",
                                                 PNumArray [4; 3])])]])])]))
  = true.
Proof. apply mat_struct_to_dict_converted. reflexivity. Defined.

Lemma dict_set_fresh (k : string) (v : pyval) (out : list (string * pyval)) :
  k ∉ map fst out -> dict_set k v out = out ++ [(k, v)].
Proof.
  induction out as [|[k' v'] rest IH]; intros Hk; [reflexivity|].
  cbn [dict_set app]. cbn [map fst] in Hk.
  apply not_elem_of_cons in Hk as [Hne Hk].
  destruct (String.eqb_spec k' k) as [->|_]; [congruence|].
  rewrite (IH Hk). reflexivity.
Qed.

Lemma fields_fold_distinct (fields : list (string * pyval)) :
  forall out : list (string * pyval),
    NoDup (map fst (out ++ fields)) ->
    foldl (fun out kv => dict_set (fst kv) (mat_struct_to_dict (snd kv)) out)
      out fields =
    out ++ map (fun kv => (fst kv, mat_struct_to_dict (snd kv))) fields.
Proof.
  induction fields as [|[k v] rest IH]; intros out Hnd.
  - cbn [foldl map]. rewrite app_nil_r. reflexivity.
  - cbn [foldl map fst snd].
    assert (k ∉ map fst out) as Hk.
    { rewrite map_app in Hnd. cbn [map fst] in Hnd.
      apply NoDup_app in Hnd as (_ & Hd & _). intros Hin.
      apply (Hd k Hin). apply list_elem_of_here. }
    rewrite (dict_set_fresh _ _ _ Hk), IH.
    + rewrite <- app_assoc. reflexivity.
    + rewrite <- app_assoc. rewrite map_app in *. exact Hnd.
Qed.

(** X25.  A [mat_struct] whose field names are distinct converts as the
    dict with the same items does: the same keys in the same order, each
    with its converted value. *)
Theorem mat_struct_to_dict_struct_as_dict (fields : list (string * pyval)) :
  NoDup (map fst fields) ->
  mat_struct_to_dict (PStruct fields) = mat_struct_to_dict (PDict fields).
Proof.
  intros Hnd. rewrite mat_struct_to_dict_struct, mat_struct_to_dict_dict.
  rewrite (fields_fold_distinct fields [] Hnd). reflexivity.
Qed.

Lemma mat_struct_to_dict_struct_as_dict_witness :
  mat_struct_to_dict
    (PStruct [("type", PStr "discharge");
              ("data", PStruct [("Time", PNumArray [0; 10])])]) =
  mat_struct_to_dict
    (PDict [("type", PStr "discharge");
            ("data", PStruct [("Time", PNumArray [0; 10])])]).
Proof.
  apply mat_struct_to_dict_struct_as_dict.
  cbn [map fst]. apply NoDup_cons. split.
  - intros Hin. apply elem_of_cons in Hin as [Hin|Hin]; [discriminate|].
    apply elem_of_nil in Hin. exact Hin.
  - apply NoDup_cons. split; [apply not_elem_of_nil | apply NoDup_nil_2].
Defined.
